(** * A shallow embedding of redis-whistle: the RESP codec of
    [redis_protocol.go], the keyspace engine [Database] and the command
    handlers that the specification talks about. *)

From Stdlib Require Import String Ascii ZArith Lia.
From stdpp Require Import base gmap strings list.

#[local] Set Warnings "-register-all".
Open Scope string_scope.
Open Scope Z_scope.

(* ================================================================== *)
(** ** Go machine integers ([int] is 64 bits) *)

Definition int_min : Z := - 2 ^ 63.
Definition int_max : Z := 2 ^ 63 - 1.

(** Two's complement wrap-around of Go's [int] arithmetic. *)
Definition wrap64 (z : Z) : Z := (z + 2 ^ 63) mod 2 ^ 64 - 2 ^ 63.

(** [maxAlloc] of the Go runtime on 64-bit Linux: [make] with a larger
    length panics with "makeslice: len out of range". *)
Definition maxAlloc : Z := 2 ^ 48.

(* ================================================================== *)
(** ** strconv.Atoi and strconv.Itoa *)

Definition digit_value (c : ascii) : option Z :=
  let n := nat_of_ascii c in
  if (48 <=? n)%nat && (n <=? 57)%nat then Some (Z.of_nat (n - 48)) else None.

(** The digit loop of [ParseUint] (base 10; no underscores when the base
    is given). *)
Fixpoint parse_digits (s : string) (acc : Z) : option Z :=
  match s with
  | EmptyString => Some acc
  | String c s' =>
      match digit_value c with
      | Some d => parse_digits s' (acc * 10 + d)
      | None => None
      end
  end.

(** [ParseUint] of the unsigned part: at least one digit. *)
Definition parse_unsigned (s : string) : option Z :=
  match s with
  | EmptyString => None
  | _ => parse_digits s 0
  end.

(** [strconv.Atoi]: an optional sign, then decimal digits, and the result
    must fit in a 64-bit [int] (otherwise [ErrRange]). [None] is the
    non-nil error. *)
Definition Atoi (s : string) : option Z :=
  match s with
  | EmptyString => None
  | String c s' =>
      if ascii_dec c "-"%char then
        match parse_unsigned s' with
        | Some n => if n <=? 2 ^ 63 then Some (- n)%Z else None
        | None => None
        end
      else if ascii_dec c "+"%char then
        match parse_unsigned s' with
        | Some n => if n <? 2 ^ 63 then Some n else None
        | None => None
        end
      else
        match parse_unsigned s with
        | Some n => if n <? 2 ^ 63 then Some n else None
        | None => None
        end
  end.

Definition digit_char (d : Z) : ascii := ascii_of_nat (Z.to_nat d + 48).

(** Decimal digits of a non-negative number; [fuel] bounds the number of
    divisions by ten (see [itoa_digits_fuel]). *)
Fixpoint itoa_digits (fuel : nat) (n : Z) : string :=
  match fuel with
  | O => String (digit_char n) EmptyString
  | S f =>
      if n <? 10 then String (digit_char n) EmptyString
      else itoa_digits f (n / 10) ++ String (digit_char (n mod 10)) EmptyString
  end.

Definition itoa_nonneg (n : Z) : string := itoa_digits (Z.to_nat (Z.log2 n)) n.

(** [strconv.Itoa]. *)
Definition Itoa (i : Z) : string :=
  if i <? 0 then "-" ++ itoa_nonneg (- i) else itoa_nonneg i.

(* ================================================================== *)
(** ** The RESP decoder ([DecodeRESP] and its helpers) *)

Definition CR : ascii := "013"%char.
Definition LF : ascii := "010"%char.
Definition CRLF : string := String CR (String LF EmptyString).

(** The bytes of the stream and of decoded values ([[]byte]). *)
Abbreviation bytes := (list ascii).

(** A [Value]: the [typ] byte selects which of [bytes] and [array] is
    meaningful, so the Go struct is a tagged union. *)
Inductive Value :=
| VSimpleString (b : bytes)
| VBulkString (b : bytes)
| VArray (array : list Value).

(** The errors the decoder can return. *)
Inductive RespError :=
| ErrEOF             (* io.EOF *)
| ErrUnexpectedEOF   (* io.ErrUnexpectedEOF of io.ReadFull *)
| ErrSyntax          (* strconv.Atoi failed *)
| ErrInvalidType.    (* "invalid RESP data type byte" *)

(** A read from the [bufio.Reader] over the remaining bytes of the
    stream: a result and the bytes left, an error, or a Go runtime panic
    (which, in a connection goroutine, terminates the whole server). *)
Inductive Decoded (A : Type) :=
| DOk (a : A) (rest : bytes)
| DErr (e : RespError)
| DPanic.
Arguments DOk {A}. Arguments DErr {A}. Arguments DPanic {A}.

(** [bufio.Reader.ReadBytes('\n')]: the bytes up to and including the
    first LF; at end of stream without LF it returns [io.EOF] (the partial
    data is dropped by the only caller). *)
Fixpoint ReadBytesLF (s : bytes) : option (bytes * bytes) :=
  match s with
  | [] => None
  | c :: s' =>
      if ascii_dec c LF then Some ([c], s')
      else match ReadBytesLF s' with
           | Some (b, r) => Some (c :: b, r)
           | None => None
           end
  end.

(** The break test of [readUntilCRLF]:
    [len(readBytes) >= 2 && readBytes[len(readBytes)-2] == '\r']. *)
Definition ends_in_CR_LF (b : bytes) : bool :=
  (2 <=? length b)%nat &&
  match b !! (length b - 2)%nat with
  | Some c => if ascii_dec c CR then true else false
  | None => false
  end.

(** The [for] loop of [readUntilCRLF]. Every iteration consumes at least
    one byte, so [fuel = 1 + length] of the stream never runs out. *)
Fixpoint readUntilCRLF_loop (fuel : nat) (readBytes s : bytes) : Decoded bytes :=
  match fuel with
  | O => DErr ErrEOF
  | S f =>
      match ReadBytesLF s with
      | None => DErr ErrEOF
      | Some (b, s') =>
          let readBytes' := app readBytes b in
          if ends_in_CR_LF readBytes'
          then DOk (take (length readBytes' - 2)%nat readBytes') s'
          else readUntilCRLF_loop f readBytes' s'
      end
  end.

Definition readUntilCRLF (s : bytes) : Decoded bytes :=
  readUntilCRLF_loop (S (length s)) [] s.

Definition decodeSimpleString (s : bytes) : Decoded Value :=
  match readUntilCRLF s with
  | DOk readBytes rest => DOk (VSimpleString readBytes) rest
  | DErr e => DErr e
  | DPanic => DPanic
  end.

(** [decodeBulkString]: [make([]byte, count+2)] panics when the length is
    negative or above [maxAlloc]; [io.ReadFull] fails with [io.EOF] when
    nothing is left and [io.ErrUnexpectedEOF] on a short read;
    [readBytes[:count]] panics when [count] is negative. *)
Definition decodeBulkString (s : bytes) : Decoded Value :=
  match readUntilCRLF s with
  | DErr e => DErr e
  | DPanic => DPanic
  | DOk readBytesForCount s1 =>
      match Atoi (string_of_list_ascii readBytesForCount) with
      | None => DErr ErrSyntax
      | Some count =>
          let n := wrap64 (count + 2) in
          if (n <? 0) || (maxAlloc <? n) then DPanic
          else if Z.of_nat (length s1) <? n then
            DErr (if (length s1 =? 0)%nat then ErrEOF else ErrUnexpectedEOF)
          else if count <? 0 then DPanic
          else DOk (VBulkString (take (Z.to_nat count) s1)) (drop (Z.to_nat n) s1)
      end
  end.

(** The element loop of [decodeArray], [for i := 1; i <= count; i++],
    over a decoder [dec] for the elements. Every element consumes at least
    its marker byte, so the fuel [g = 1 + length] never runs out. *)
Fixpoint decodeArray_loop (dec : bytes -> Decoded Value) (g : nat) (i count : Z)
    (s : bytes) (array : list Value) : Decoded (list Value) :=
  if i <=? count then
    match g with
    | O => DErr ErrEOF
    | S g' =>
        match dec s with
        | DOk v s' => decodeArray_loop dec g' (i + 1) count s' (app array [v])
        | DErr e => DErr e
        | DPanic => DPanic
        end
    end
  else DOk array s.

Definition decodeArray (dec : bytes -> Decoded Value) (s : bytes) : Decoded Value :=
  match readUntilCRLF s with
  | DErr e => DErr e
  | DPanic => DPanic
  | DOk readBytesForCount s1 =>
      match Atoi (string_of_list_ascii readBytesForCount) with
      | None => DErr ErrSyntax
      | Some count =>
          match decodeArray_loop dec (S (length s1)) 1 count s1 [] with
          | DOk array rest => DOk (VArray array) rest
          | DErr e => DErr e
          | DPanic => DPanic
          end
      end
  end.

(** [DecodeRESP]; each nesting level consumes a marker byte, so the
    fuel [1 + length] (see [DecodeRESP]) never runs out. *)
Fixpoint DecodeRESP_fuel (fuel : nat) (s : bytes) : Decoded Value :=
  match fuel with
  | O => DErr ErrEOF
  | S f =>
      match s with
      | [] => DErr ErrEOF
      | c :: s' =>
          if ascii_dec c "+"%char then decodeSimpleString s'
          else if ascii_dec c "$"%char then decodeBulkString s'
          else if ascii_dec c "*"%char then decodeArray (DecodeRESP_fuel f) s'
          else DErr ErrInvalidType
      end
  end.

Definition DecodeRESP (s : bytes) : Decoded Value :=
  DecodeRESP_fuel (S (length s)) s.

(** [conn.Write([]byte(response))]: the bytes a reply puts on the wire. *)
Definition wire (response : string) : bytes := list_ascii_of_string response.

(* ================================================================== *)
(** ** The reply encoders *)

Definition returnError (s : string) : string := "-ERR " ++ s ++ CRLF.
Definition returnSimpleString (s : string) : string := "+" ++ s ++ CRLF.
Definition returnNullBulkString : string := "$-1" ++ CRLF.
Definition returnBulkString (s : string) : string :=
  "$" ++ Itoa (Z.of_nat (String.length s)) ++ CRLF ++ s ++ CRLF.
Definition returnInteger (i : Z) : string := ":" ++ Itoa i ++ CRLF.

Fixpoint returnArray_elems (a : list string) : string :=
  match a with
  | [] => ""
  | v :: a' =>
      (if String.eqb v "" then returnNullBulkString else returnBulkString v)
        ++ returnArray_elems a'
  end.

Definition returnArray (a : list string) : string :=
  "*" ++ Itoa (Z.of_nat (length a)) ++ CRLF ++ returnArray_elems a.

(* ================================================================== *)
(** ** The keyspace engine ([Database]) *)

(** Instants are [time.Time] values taken as nanoseconds. The zero
    [time.Time{}] that [GetExpire] returns for a key without expiry is
    never stored ([time.Now()] carries a location and a monotonic
    reading), so [GetExpire] returns an [option]. The unexported [id]
    field is [db_id]; the lock and the stop channel carry no data. *)
Record Database := mkDatabase {
  db_id : Z;
  StringKeys : gmap string string;
  ExpireKeys : gmap string Z
}.

Definition NewDatabase (id : Z) : Database := mkDatabase id ∅ ∅.

Definition set_StringKeys (m : gmap string string) (db : Database) : Database :=
  mkDatabase (db_id db) m (ExpireKeys db).
Definition set_ExpireKeys (m : gmap string Z) (db : Database) : Database :=
  mkDatabase (db_id db) (StringKeys db) m.

(** [Flush]. *)
Definition Flush (db : Database) : Database := mkDatabase (db_id db) ∅ ∅.

(* ================================================================== *)
(** ** [time.Duration] and [float64] *)

(** [time.Second], in nanoseconds. *)
Definition Second : Z := 1000000000.

(** [Time.Sub]: the difference in nanoseconds, saturated to the range of
    [Duration] (an [int64]). *)
Definition Time_Sub (t u : Z) : Z := Z.max int_min (Z.min int_max (t - u)).

(** [time.Until(t)], with [now] the reading of the clock it takes. *)
Definition time_Until (now t : Z) : Z := Time_Sub t now.

(** A finite IEEE 754 binary64 number, of value [fm * 2 ^ fe]. Only the
    normal range is modelled: the numbers rounded below are integers under
    2^53 and their quotients by 1e9, far from the subnormal and overflow
    ranges. *)
Record float64 := mkFloat64 { fm : Z; fe : Z }.

(** The exact value of a [float64] as a fraction [(num, den)], [den > 0]. *)
Definition float64_frac (x : float64) : Z * Z :=
  if 0 <? fe x then (fm x * 2 ^ fe x, 1) else (fm x, 2 ^ (- fe x)).

(** The fraction [num / den] multiplied by [2 ^ k]. *)
Definition scale_frac (num den k : Z) : Z * Z :=
  if 0 <=? k then (num * 2 ^ k, den) else (num, den * 2 ^ (- k)).

(** [q + r / den] ([0 <= r < den]) rounded to an integer, to nearest
    with ties to even. *)
Definition round_half_even (q r den : Z) : Z :=
  if 2 * r <? den then q
  else if den <? 2 * r then q + 1
  else if Z.even q then q else q + 1.

(** The binary64 number nearest to [num / den] ([num, den > 0]), ties to
    even: the scale [2 ^ k] puts [num / den * 2 ^ k] in [[2^52, 2^53)],
    and its rounding to an integer is the 53-bit significand. *)
Definition round_pos (num den : Z) : float64 :=
  let k0 := 52 - (Z.log2 num - Z.log2 den) in
  let k := let '(n, d) := scale_frac num den k0 in
           if 2 ^ 52 * d <=? n then k0 else k0 + 1 in
  let '(n, d) := scale_frac num den k in
  mkFloat64 (round_half_even (n / d) (n mod d) d) (- k).

Definition float64_neg (x : float64) : float64 := mkFloat64 (- fm x) (fe x).

(** Rounding of the fraction [num / den], [den > 0]. *)
Definition round_frac (num den : Z) : float64 :=
  if num =? 0 then mkFloat64 0 0
  else if 0 <? num then round_pos num den
  else float64_neg (round_pos (- num) den).

(** [float64(z)] for an integer [z]. *)
Definition float64_of_int (z : Z) : float64 := round_frac z 1.

(** [x + y] in [float64]. *)
Definition float64_add (x y : float64) : float64 :=
  let '(n1, d1) := float64_frac x in
  let '(n2, d2) := float64_frac y in
  round_frac (n1 * d2 + n2 * d1) (d1 * d2).

(** [x / y] in [float64], for [y <> 0]. *)
Definition float64_div (x y : float64) : float64 :=
  let '(n1, d1) := float64_frac x in
  let '(n2, d2) := float64_frac y in
  round_frac (n1 * d2 * Z.sgn n2) (d1 * Z.abs n2).

(** [int(x)]: truncation toward zero. *)
Definition int_of_float64 (x : float64) : Z :=
  let '(n, d) := float64_frac x in Z.quot n d.

(** [Duration.Seconds]:
    [sec := d / Second; nsec := d % Second;
     return float64(sec) + float64(nsec)/1e9]. *)
Definition Duration_Seconds (d : Z) : float64 :=
  let sec := Z.quot d Second in
  let nsec := Z.rem d Second in
  float64_add (float64_of_int sec)
    (float64_div (float64_of_int nsec) (float64_of_int Second)).

(** [now] is the instant of an operation's first [time.Now()] reading
    (the one in [checkAndRemoveExpiredKey]); [TTL] and [Expire] read the
    clock a second time, passed as an argument. *)
Section Engine.
Variable now : Z.

(** [checkAndRemoveExpiredKey]: [time.Now().After(expire)]. *)
Definition checkAndRemoveExpiredKey (key : string) (db : Database) : bool * Database :=
  match ExpireKeys db !! key with
  | None => (false, db)
  | Some expire =>
      if now >? expire
      then (true, mkDatabase (db_id db) (delete key (StringKeys db))
                             (delete key (ExpireKeys db)))
      else (false, db)
  end.

(** [GetExpire]. *)
Definition GetExpire (key : string) (db : Database) : option Z :=
  ExpireKeys db !! key.

(** [Get]: the empty string stands for "absent". *)
Definition Get (key : string) (db : Database) : string * Database :=
  match StringKeys db !! key with
  | None => ("", db)
  | Some storage =>
      let '(removed, db1) := checkAndRemoveExpiredKey key db in
      if removed then ("", db1) else (storage, db1)
  end.

(** [Set]. *)
Definition Set_ (key value : string) (db : Database) : Database :=
  set_StringKeys (<[key := value]> (StringKeys db)) db.

(** [Del]: only [StringKeys] is touched. *)
Fixpoint Del_loop (keys : list string) (numberOfKeysDeleted : Z) (db : Database)
    : Z * Database :=
  match keys with
  | [] => (numberOfKeysDeleted, db)
  | key :: keys' =>
      let '(value, db1) := Get key db in
      if String.eqb value "" then Del_loop keys' numberOfKeysDeleted db1
      else Del_loop keys' (numberOfKeysDeleted + 1)
             (set_StringKeys (delete key (StringKeys db1)) db1)
  end.

Definition Del (keys : list string) (db : Database) : Z * Database :=
  Del_loop keys 0 db.

(** [Setpx]: [time.Now().Add(time.Millisecond * time.Duration(ms))]. *)
Definition Setpx (key : string) (milliseconds : Z) (value : string) (db : Database)
    : Database :=
  let db1 := Set_ key value db in
  set_ExpireKeys (<[key := now + wrap64 (1000000 * milliseconds)]> (ExpireKeys db1)) db1.

(** The first loop of [MSetNX], over [args[0]], [args[2]], ... *)
Fixpoint MSetNX_check (args : list string) (db : Database) : bool * Database :=
  match args with
  | [] => (true, db)
  | [key] =>
      let '(storage, db1) := Get key db in
      (String.eqb storage "", db1)
  | key :: _ :: args' =>
      let '(storage, db1) := Get key db in
      if String.eqb storage "" then MSetNX_check args' db1 else (false, db1)
  end.

(** The second loop of [MSetNX]; [args[i+1]] past the end panics
    ([None]). *)
Fixpoint MSetNX_set (args : list string) (db : Database) : option Database :=
  match args with
  | [] => Some db
  | [_] => None
  | key :: value :: args' => MSetNX_set args' (Set_ key value db)
  end.

(** [MSetNX]; [None] is a runtime panic. *)
Definition MSetNX (args : list string) (db : Database) : option (bool * Database) :=
  let '(ok, db1) := MSetNX_check args db in
  if ok then
    match MSetNX_set args db1 with
    | Some db2 => Some (true, db2)
    | None => None
    end
  else Some (false, db1).

(** [IncrBy] (and, with [increment = 1], [Incr]). *)
Definition IncrBy (key : string) (increment : Z) (db : Database) : Z * Database :=
  let '(storage, db1) := Get key db in
  if String.eqb storage "" then (increment, Set_ key (Itoa increment) db1)
  else
    let '(removed, db2) := checkAndRemoveExpiredKey key db1 in
    if removed then (0, db2)
    else match Atoi storage with
         | None => (0, db2)
         | Some value =>
             let value' := wrap64 (value + increment) in
             (value', Set_ key (Itoa value') db2)
         end.

(** [Incr]. *)
Definition Incr (key : string) (db : Database) : Z * Database :=
  let '(storage, db1) := Get key db in
  if String.eqb storage "" then (1, Set_ key "1" db1)
  else
    let '(removed, db2) := checkAndRemoveExpiredKey key db1 in
    if removed then (0, db2)
    else match Atoi storage with
         | None => (0, db2)
         | Some value =>
             let value' := wrap64 (value + 1) in
             (value', Set_ key (Itoa value') db2)
         end.

(** [Decr]. *)
Definition Decr (key : string) (db : Database) : Z * Database :=
  let '(storage, db1) := Get key db in
  if String.eqb storage "" then (-1, Set_ key "-1" db1)
  else
    let '(removed, db2) := checkAndRemoveExpiredKey key db1 in
    if removed then (0, db2)
    else match Atoi storage with
         | None => (0, db2)
         | Some value =>
             let value' := wrap64 (value - 1) in
             (value', Set_ key (Itoa value') db2)
         end.

(** [DecrBy]. *)
Definition DecrBy (key : string) (decrement : Z) (db : Database) : Z * Database :=
  let '(storage, db1) := Get key db in
  if String.eqb storage "" then
    (wrap64 (- decrement), Set_ key (Itoa (wrap64 (- decrement))) db1)
  else
    let '(removed, db2) := checkAndRemoveExpiredKey key db1 in
    if removed then (0, db2)
    else match Atoi storage with
         | None => (0, db2)
         | Some value =>
             let value' := wrap64 (value - decrement) in
             (value', Set_ key (Itoa value') db2)
         end.

(** [TTL]: [Get] reads the clock at [now]; [time.Until] reads it again,
    at [now_until], and [int(time.Until(expire).Seconds())] is the reply. *)
Definition TTL (now_until : Z) (key : string) (db : Database) : Z * Database :=
  let '(storage, db1) := Get key db in
  if String.eqb storage "" then (-2, db1)
  else match GetExpire key db1 with
       | None => (-1, db1)
       | Some expire =>
           (int_of_float64 (Duration_Seconds (time_Until now_until expire)), db1)
       end.

(** [Exists]. *)
Fixpoint Exists_loop (keys : list string) (numberOfKeysExisting : Z) (db : Database)
    : Z * Database :=
  match keys with
  | [] => (numberOfKeysExisting, db)
  | key :: keys' =>
      let '(storage, db1) := Get key db in
      if String.eqb storage "" then Exists_loop keys' numberOfKeysExisting db1
      else Exists_loop keys' (numberOfKeysExisting + 1) db1
  end.

Definition Exists (keys : list string) (db : Database) : Z * Database :=
  Exists_loop keys 0 db.

End Engine.

(* ================================================================== *)
(** ** Snapshots: [Save] and [Load] with [encoding/gob] *)

(** What [os.Open] and the gob decoder find under a file name: no file
    that can be opened, a file whose read fails, or the gob image of a
    [Database] (its exported fields [StringKeys] and [ExpireKeys]). *)
Inductive FileState :=
| FileMissing
| FileUnreadable
| FileSnapshot (sk : gmap string string) (ek : gmap string Z).

(** The disk: the contents under each name, whether [os.Create] succeeds
    and whether the encoder's writes succeed. *)
Record Disk := mkDisk {
  files : string -> FileState;
  can_create : string -> bool;
  write_ok : string -> bool
}.

Definition write_file (name : string) (f : FileState) (d : Disk) : Disk :=
  mkDisk (fun n => if String.eqb n name then f else files d n)
         (can_create d) (write_ok d).

(** ["database_" + strconv.Itoa(db.id) + "_dump" + ".db"]. *)
Definition dump_file_name (db : Database) : string :=
  "database_" ++ Itoa (db_id db) ++ "_dump" ++ ".db".

(** [Database.Save]: errors are logged and the function returns; the
    in-memory maps are only read. *)
Definition Save (db : Database) (d : Disk) : Disk :=
  let fileName := dump_file_name db in
  if can_create d fileName then
    if write_ok d fileName
    then write_file fileName (FileSnapshot (StringKeys db) (ExpireKeys db)) d
    else write_file fileName FileUnreadable d
  else d.

(** [gob.Decoder.Decode(db)]: gob decodes a map field into the existing
    map when it is non-nil ([decodeMap] only allocates a nil map) and
    stores each transmitted entry with [SetMapIndex], so the decoded
    entries are added to, and override, the entries already there. *)
Definition gob_decode_into (sk : gmap string string) (ek : gmap string Z)
    (db : Database) : Database :=
  mkDatabase (db_id db) (sk ∪ StringKeys db) (ek ∪ ExpireKeys db).

(** [Database.Load]. *)
Definition Load (fileName : string) (d : Disk) (db : Database) : Database :=
  let fileName := if String.eqb fileName "" then dump_file_name db else fileName in
  match files d fileName with
  | FileMissing => db
  | FileUnreadable => db
  | FileSnapshot sk ek => gob_decode_into sk ek db
  end.

(* ================================================================== *)
(** ** The server and the command handlers *)

Record RedisServer := mkServer {
  databases : list Database;
  selectedDB : nat;
  disk : Disk
}.

(** A handler returns the reply to write, with the new server state, or
    panics (an index out of range). *)
Inductive CmdResult :=
| CReply (reply : string) (srv : RedisServer)
| CPanic.

Definition set_databases (dbs : list Database) (srv : RedisServer) : RedisServer :=
  mkServer dbs (selectedDB srv) (disk srv).
Definition set_disk (d : Disk) (srv : RedisServer) : RedisServer :=
  mkServer (databases srv) (selectedDB srv) d.

(** [redis.databases[redis.selectedDB].Op(...)]: run [op] on the selected
    database and store it back; [reply] renders the result. *)
Definition on_selected {A} (op : Database -> A * Database) (reply : A -> string)
    (srv : RedisServer) : CmdResult :=
  match databases srv !! selectedDB srv with
  | None => CPanic
  | Some db =>
      let '(a, db') := op db in
      CReply (reply a) (set_databases (<[selectedDB srv := db']> (databases srv)) srv)
  end.

Definition checkNumberOfArguments (args : list string) (expected : nat) : bool :=
  (expected <=? length args)%nat.

Definition returnWrongNumberOfArgumentsError (command : string) : string :=
  returnError ("wrong number of arguments for '" ++ command ++ "' command").

(** [args[0]]; [None] is the index-out-of-range panic. *)
Definition arg0 (args : list string) : option string := head args.

Section Commands.
Variable now : Z.

(** [echoCommand]. *)
Definition echoCommand (args : list string) (srv : RedisServer) : CmdResult :=
  match arg0 args with
  | None => CPanic
  | Some a => CReply (returnBulkString a) srv
  end.

(** [getCommand]. *)
Definition getCommand (args : list string) (srv : RedisServer) : CmdResult :=
  if negb (checkNumberOfArguments args 1) then
    CReply (returnWrongNumberOfArgumentsError "GET") srv
  else match arg0 args with
       | None => CPanic
       | Some key =>
           on_selected (Get now key)
             (fun value => if String.eqb value "" then returnNullBulkString
                           else returnBulkString value) srv
       end.

(** [delCommand]. *)
Definition delCommand (args : list string) (srv : RedisServer) : CmdResult :=
  if negb (checkNumberOfArguments args 1) then
    CReply (returnWrongNumberOfArgumentsError "DEL") srv
  else on_selected (Del now args) returnInteger srv.

(** [existsCommand]. *)
Definition existsCommand (args : list string) (srv : RedisServer) : CmdResult :=
  if negb (checkNumberOfArguments args 1) then
    CReply (returnWrongNumberOfArgumentsError "EXISTS") srv
  else on_selected (Exists now args) returnInteger srv.

(** [ttlCommand]. *)
Definition ttlCommand (now_until : Z) (args : list string) (srv : RedisServer)
    : CmdResult :=
  if negb (checkNumberOfArguments args 1) then
    CReply (returnWrongNumberOfArgumentsError "TTL") srv
  else match arg0 args with
       | None => CPanic
       | Some key => on_selected (TTL now now_until key) returnInteger srv
       end.

(** [incrCommand]. *)
Definition incrCommand (args : list string) (srv : RedisServer) : CmdResult :=
  if negb (checkNumberOfArguments args 1) then
    CReply (returnWrongNumberOfArgumentsError "INCR") srv
  else match arg0 args with
       | None => CPanic
       | Some key => on_selected (Incr now key) returnInteger srv
       end.

(** [saveCommand]. *)
Definition saveCommand (_ : list string) (srv : RedisServer) : CmdResult :=
  match databases srv !! selectedDB srv with
  | None => CPanic
  | Some db => CReply (returnSimpleString "OK") (set_disk (Save db (disk srv)) srv)
  end.

(** [loadCommand]. *)
Definition loadCommand (args : list string) (srv : RedisServer) : CmdResult :=
  if negb (checkNumberOfArguments args 1) then
    CReply (returnWrongNumberOfArgumentsError "LOAD") srv
  else
    let fileName := match args with [] => "" | a :: _ => a end in
    on_selected (fun db => (tt, Load fileName (disk srv) db))
      (fun _ => returnSimpleString "OK") srv.

End Commands.

(* ================================================================== *)
(** ** The rest of the engine *)

Section EngineRest.
Variable now : Z.

(** The test of [checkAndRemoveExpiredKeys] on one key:
    [time.Now().After(expireTime)]. *)
Definition expired (db : Database) (key : string) : bool :=
  match ExpireKeys db !! key with
  | Some expireTime => now >? expireTime
  | None => false
  end.

(** [checkAndRemoveExpiredKeys]: the [range] loop over [ExpireKeys]
    deletes, from both maps, every key whose expiry instant has passed.
    Each step deletes only the entry it visits, so every entry is visited
    and the iteration order does not matter. *)
Definition checkAndRemoveExpiredKeys (db : Database) : Database :=
  mkDatabase (db_id db)
    (filter (fun kv => expired db kv.1 = false) (StringKeys db))
    (filter (fun kv => expired db kv.1 = false) (ExpireKeys db)).

(** [GetSet]; [db.StringKeys[key] = value] is [Set] without the lock. *)
Definition GetSet (key value : string) (db : Database) : string * Database :=
  let '(storage, db1) := Get now key db in
  if String.eqb storage "" then ("", Set_ key value db1)
  else
    let '(removed, db2) := checkAndRemoveExpiredKey now key db1 in
    if removed then ("", Set_ key value db2)
    else (storage, Set_ key value db2).

(** [GetDel]. *)
Definition GetDel (key : string) (db : Database) : string * Database :=
  let '(storage, db1) := Get now key db in
  if String.eqb storage "" then ("", db1)
  else (storage, snd (Del now [key] db1)).

(** [MSet]: [args[i+1]] past the end panics ([None]). *)
Fixpoint MSet (args : list string) (db : Database) : option Database :=
  match args with
  | [] => Some db
  | [_] => None
  | key :: value :: args' => MSet args' (Set_ key value db)
  end.

(** [MGet]: [values[i] = db.Get(args[i])] in order. *)
Fixpoint MGet (args : list string) (db : Database) : list string * Database :=
  match args with
  | [] => ([], db)
  | key :: args' =>
      let '(value, db1) := Get now key db in
      let '(values, db2) := MGet args' db1 in
      (value :: values, db2)
  end.

(** [Expire]: [Get] reads the clock at [now], then the new expiry is
    [time.Now().Add(time.Second * time.Duration(seconds))], with [time.Now()]
    a second reading [now_add]. *)
Definition Expire (now_add : Z) (key : string) (seconds : Z) (db : Database)
    : bool * Database :=
  let '(storage, db1) := Get now key db in
  if String.eqb storage "" then (false, db1)
  else (true, set_ExpireKeys
                (<[key := now_add + wrap64 (Second * seconds)]> (ExpireKeys db1)) db1).

(** [Persist]. *)
Definition Persist (key : string) (db : Database) : bool * Database :=
  let '(storage, db1) := Get now key db in
  if String.eqb storage "" then (false, db1)
  else match GetExpire key db1 with
       | None => (false, db1)
       | Some _ => (true, set_ExpireKeys (delete key (ExpireKeys db1)) db1)
       end.

End EngineRest.

(* ================================================================== *)
(** ** The remaining command handlers *)

(** Upper-casing of the ASCII letters. [strings.ToUpper] agrees with it on
    ASCII strings; on other strings it maps runes with [unicode.ToUpper],
    and no non-ASCII rune (nor the [U+FFFD] of an invalid byte) upper-cases
    to [P], [X] or [E], so comparing the result with ["PX"] or ["EX"] gives
    the same answer as in Go. *)
Definition ascii_upper (c : ascii) : ascii :=
  let n := nat_of_ascii c in
  if (97 <=? n)%nat && (n <=? 122)%nat then ascii_of_nat (n - 32) else c.

Fixpoint ToUpper_ascii (s : string) : string :=
  match s with
  | EmptyString => EmptyString
  | String c s' => String (ascii_upper c) (ToUpper_ascii s')
  end.

(** The reply of GET, GETSET and GETDEL. *)
Definition bulk_or_null (value : string) : string :=
  if String.eqb value "" then returnNullBulkString else returnBulkString value.

Definition integer_of_bool (b : bool) : string :=
  if b then returnInteger 1 else returnInteger 0.

Definition not_an_integer : string := returnError "value is not an integer or out of range".

(** [redis.databases[redis.selectedDB].Op(...)] for an operation that may
    panic ([None]). *)
Definition on_selected_opt (op : Database -> option Database) (reply : string)
    (srv : RedisServer) : CmdResult :=
  match databases srv !! selectedDB srv with
  | None => CPanic
  | Some db =>
      match op db with
      | None => CPanic
      | Some db' => CReply reply (set_databases (<[selectedDB srv := db']> (databases srv)) srv)
      end
  end.

Section CommandsRest.
Variable now : Z.

(** [pingCommand]. *)
Definition pingCommand (args : list string) (srv : RedisServer) : CmdResult :=
  match args with
  | a :: _ => if negb (String.eqb a "") then CReply (returnBulkString a) srv
              else CReply (returnSimpleString "PONG") srv
  | [] => CReply (returnSimpleString "PONG") srv
  end.

(** [setCommand]: the option is [args[2]], its operand [args[3]]. *)
Definition setCommand (args : list string) (srv : RedisServer) : CmdResult :=
  if negb (checkNumberOfArguments args 2) then
    CReply (returnWrongNumberOfArgumentsError "SET") srv
  else match args with
  | key :: value :: optionCommand :: rest =>
      if String.eqb (ToUpper_ascii optionCommand) "PX" then
        match rest with
        | [] => CPanic
        | a3 :: _ =>
            match Atoi a3 with
            | None => CReply not_an_integer srv
            | Some milliseconds =>
                on_selected (fun db => (tt, Setpx now key milliseconds value db))
                  (fun _ => returnSimpleString "OK") srv
            end
        end
      else if String.eqb (ToUpper_ascii optionCommand) "EX" then
        match rest with
        | [] => CPanic
        | a3 :: _ =>
            match Atoi a3 with
            | None => CReply not_an_integer srv
            | Some seconds =>
                on_selected (fun db => (tt, Setpx now key (wrap64 (seconds * 1000)) value db))
                  (fun _ => returnSimpleString "OK") srv
            end
        end
      else CReply (returnError ("unknown command '" ++ optionCommand ++ "'")) srv
  | [key; value] =>
      on_selected (fun db => (tt, Set_ key value db)) (fun _ => returnSimpleString "OK") srv
  | _ => CPanic
  end.

(** [setexCommand]. *)
Definition setexCommand (args : list string) (srv : RedisServer) : CmdResult :=
  if negb (checkNumberOfArguments args 3) then
    CReply (returnWrongNumberOfArgumentsError "SETEX") srv
  else match args with
  | key :: a1 :: value :: _ =>
      match Atoi a1 with
      | None => CReply not_an_integer srv
      | Some seconds =>
          on_selected (fun db => (tt, Setpx now key (wrap64 (seconds * 1000)) value db))
            (fun _ => returnSimpleString "OK") srv
      end
  | _ => CPanic
  end.

(** [getsetCommand]. *)
Definition getsetCommand (args : list string) (srv : RedisServer) : CmdResult :=
  if negb (checkNumberOfArguments args 2) then
    CReply (returnWrongNumberOfArgumentsError "GETSET") srv
  else match args with
  | key :: value :: _ => on_selected (GetSet now key value) bulk_or_null srv
  | _ => CPanic
  end.

(** [getdelCommand]. *)
Definition getdelCommand (args : list string) (srv : RedisServer) : CmdResult :=
  if negb (checkNumberOfArguments args 1) then
    CReply (returnWrongNumberOfArgumentsError "GETDEL") srv
  else match args with
  | key :: _ => on_selected (GetDel now key) bulk_or_null srv
  | _ => CPanic
  end.

(** [msetCommand]. *)
Definition msetCommand (args : list string) (srv : RedisServer) : CmdResult :=
  if negb (checkNumberOfArguments args 2) then
    CReply (returnWrongNumberOfArgumentsError "MSET") srv
  else if negb (Nat.even (length args)) then
    CReply (returnError "wrong number of arguments for 'MSET' command") srv
  else on_selected_opt (MSet args) (returnSimpleString "OK") srv.

(** [msetnxCommand]. *)
Definition msetnxCommand (args : list string) (srv : RedisServer) : CmdResult :=
  if negb (checkNumberOfArguments args 2) then
    CReply (returnWrongNumberOfArgumentsError "MSETNX") srv
  else if negb (Nat.even (length args)) then
    CReply (returnError "wrong number of arguments for 'MSETNX' command") srv
  else match databases srv !! selectedDB srv with
       | None => CPanic
       | Some db =>
           match MSetNX now args db with
           | None => CPanic
           | Some (ok, db') =>
               CReply (integer_of_bool ok)
                 (set_databases (<[selectedDB srv := db']> (databases srv)) srv)
           end
       end.

(** [mgetCommand]. *)
Definition mgetCommand (args : list string) (srv : RedisServer) : CmdResult :=
  if negb (checkNumberOfArguments args 1) then
    CReply (returnWrongNumberOfArgumentsError "MGET") srv
  else on_selected (MGet now args) returnArray srv.

(** [incrbyCommand]. *)
Definition incrbyCommand (args : list string) (srv : RedisServer) : CmdResult :=
  if negb (checkNumberOfArguments args 2) then
    CReply (returnWrongNumberOfArgumentsError "INCRBY") srv
  else match args with
  | key :: a1 :: _ =>
      match Atoi a1 with
      | None => CReply not_an_integer srv
      | Some increment => on_selected (IncrBy now key increment) returnInteger srv
      end
  | _ => CPanic
  end.

(** [decrCommand]. *)
Definition decrCommand (args : list string) (srv : RedisServer) : CmdResult :=
  if negb (checkNumberOfArguments args 1) then
    CReply (returnWrongNumberOfArgumentsError "DECR") srv
  else match arg0 args with
       | None => CPanic
       | Some key => on_selected (Decr now key) returnInteger srv
       end.

(** [decrbyCommand]. *)
Definition decrbyCommand (args : list string) (srv : RedisServer) : CmdResult :=
  if negb (checkNumberOfArguments args 2) then
    CReply (returnWrongNumberOfArgumentsError "DECRBY") srv
  else match args with
  | key :: a1 :: _ =>
      match Atoi a1 with
      | None => CReply not_an_integer srv
      | Some decrement => on_selected (DecrBy now key decrement) returnInteger srv
      end
  | _ => CPanic
  end.

(** [expireCommand]. *)
Definition expireCommand (now_add : Z) (args : list string) (srv : RedisServer)
    : CmdResult :=
  if negb (checkNumberOfArguments args 2) then
    CReply (returnWrongNumberOfArgumentsError "EXPIRE") srv
  else match args with
  | key :: a1 :: _ =>
      match Atoi a1 with
      | None => CReply not_an_integer srv
      | Some seconds => on_selected (Expire now now_add key seconds) integer_of_bool srv
      end
  | _ => CPanic
  end.

(** [persistCommand]. *)
Definition persistCommand (args : list string) (srv : RedisServer) : CmdResult :=
  if negb (checkNumberOfArguments args 1) then
    CReply (returnWrongNumberOfArgumentsError "PERSIST") srv
  else match arg0 args with
       | None => CPanic
       | Some key => on_selected (Persist now key) integer_of_bool srv
       end.

(** [RedisServer.SelectDB]: [Close] stops the expire checker of the current
    database (no data changes; indexing it panics when out of range), then
    [StartDB("")] runs [checkAndRemoveExpiredKeys] on the new database and
    [Init("")], which loads nothing for the empty file name and restarts
    the checker. *)
Definition SelectDB (index : nat) (srv : RedisServer) : option RedisServer :=
  match databases srv !! selectedDB srv with
  | None => None
  | Some _ =>
      match databases srv !! index with
      | None => None
      | Some db =>
          Some (mkServer (<[index := checkAndRemoveExpiredKeys now db]> (databases srv))
                         index (disk srv))
      end
  end.

(** [selectCommand]; the log line carries no data. *)
Definition selectCommand (args : list string) (srv : RedisServer) : CmdResult :=
  if negb (length args =? 1)%nat then
    CReply (returnWrongNumberOfArgumentsError "SELECT") srv
  else match args with
  | [a] =>
      match Atoi a with
      | None => CReply (returnError "value is not an integer") srv
      | Some index =>
          if (index <? 0) || (16 <=? index) then
            CReply (returnError "value is out of range or invalid DB index") srv
          else match SelectDB (Z.to_nat index) srv with
               | None => CPanic
               | Some srv' => CReply (returnSimpleString "OK") srv'
               end
      end
  | _ => CPanic
  end.

(** [flushdbCommand]. *)
Definition flushdbCommand (_ : list string) (srv : RedisServer) : CmdResult :=
  on_selected (fun db => (tt, Flush db)) (fun _ => returnSimpleString "OK") srv.

(** [flushallCommand]. *)
Definition flushallCommand (_ : list string) (srv : RedisServer) : CmdResult :=
  CReply (returnSimpleString "OK") (set_databases (map Flush (databases srv)) srv).

End CommandsRest.

(* ================================================================== *)
(** ** Reading requests: [Value] accessors and [handleRequest] *)

(** [Value.String]. *)
Definition Value_String (v : Value) : string :=
  match v with
  | VSimpleString b | VBulkString b => string_of_list_ascii b
  | VArray _ => ""
  end.

(** [Value.Array]. *)
Definition Value_Array (v : Value) : list Value :=
  match v with
  | VArray array => array
  | _ => []
  end.

(** [Value.StringArray]. *)
Definition Value_StringArray (v : Value) : list string :=
  map Value_String (Value_Array v).

(** One iteration of the loop of [handleRequest], over the bytes the
    client sends before closing the connection: stop on [io.EOF]
    ([errors.Is] sees through the [%w] wrapping), drop the client on
    another decoding error, panic, or write a reply and continue. *)
Inductive Step :=
| StepStop
| StepDrop
| StepPanic
| StepReply (reply : string) (rest : bytes) (srv : RedisServer).

(** The step is given [strings.ToUpper] and the lookup in
    [getCommandMap()] as parameters. *)
Section Handle.
Variable ToUpper : string -> string.
Variable commandMap : string -> option (list string -> RedisServer -> CmdResult).

Definition handleRequest_step (s : bytes) (srv : RedisServer) : Step :=
  match DecodeRESP s with
  | DPanic => StepPanic
  | DErr ErrEOF => StepStop
  | DErr _ => StepDrop
  | DOk value rest =>
      match Value_Array value with
      | [] => StepPanic
      | v0 :: _ =>
          let comingCommand := ToUpper (Value_String v0) in
          let args := tail (Value_StringArray value) in
          match commandMap comingCommand with
          | Some command =>
              match command args srv with
              | CPanic => StepPanic
              | CReply response srv' => StepReply response rest srv'
              end
          | None =>
              StepReply (returnError ("Unknown command '" ++ comingCommand ++ "'")) rest srv
          end
      end
  end.

End Handle.

(* ================================================================== *)
(** * Properties *)

(* ------------------------------------------------------------------ *)
(** ** Set and its frame *)

(** C8: [Set] overwrites the value of [key] and touches nothing else: the
    expiry map (so the key's own expiry instant too), the id and the
    values of the other keys are those from before. *)
Theorem Set_keeps_expiry_and_other_keys (key value : string) (db : Database) :
  StringKeys (Set_ key value db) !! key = Some value /\
  ExpireKeys (Set_ key value db) = ExpireKeys db /\
  ExpireKeys (Set_ key value db) !! key = ExpireKeys db !! key /\
  db_id (Set_ key value db) = db_id db /\
  (forall k, k <> key -> StringKeys (Set_ key value db) !! k = StringKeys db !! k).
Proof.
  unfold Set_, set_StringKeys; simpl.
  split; [apply lookup_insert_eq|].
  split; [reflexivity|]. split; [reflexivity|]. split; [reflexivity|].
  intros k Hk. apply lookup_insert_ne. congruence.
Qed.

(* ------------------------------------------------------------------ *)
(** ** Arity checks *)

(** C5: [echoCommand] indexes [args[0]] without checking the number of
    arguments: ECHO with no argument is an index-out-of-range panic, not
    the wrong-number-of-arguments reply. *)
Theorem echoCommand_without_arguments_panics (srv : RedisServer) :
  echoCommand [] srv = CPanic.
Proof. reflexivity. Qed.

(* ------------------------------------------------------------------ *)
(** ** Bulk strings with a negative length *)

(** C2: a negative declared length is parsed by [strconv.Atoi] and not
    rejected: ["$-2\r\n"] makes [make([]byte, 0)] and then
    [readBytes[:-2]] panics, and ["$-1\r\n"] followed by any byte panics
    at [readBytes[:-1]]. *)
Theorem decodeBulkString_negative_length_panics :
  DecodeRESP (wire ("$-2" ++ CRLF)) = DPanic /\
  DecodeRESP (wire ("$-1" ++ CRLF ++ "+OK" ++ CRLF)) = DPanic.
Proof. split; vm_compute; reflexivity. Qed.

(* ------------------------------------------------------------------ *)
(** ** Snapshots *)

Definition prior_db : Database := mkDatabase 0 {[ "old" := "1" ]} ∅.

Definition snapshot_disk : Disk :=
  mkDisk (fun n => if String.eqb n "snap.db"
                   then FileSnapshot {[ "new" := "2" ]} ∅ else FileMissing)
         (fun _ => true) (fun _ => true).

(** C4: [Load] decodes the snapshot into the live maps, so a key of the
    prior state that the snapshot does not contain survives the restore
    next to the snapshot's keys. *)
Theorem Load_keeps_keys_missing_from_snapshot :
  StringKeys (Load "snap.db" snapshot_disk prior_db) !! "old" = Some "1" /\
  StringKeys (Load "snap.db" snapshot_disk prior_db) !! "new" = Some "2".
Proof. split; reflexivity. Qed.

Lemma set_databases_same (srv : RedisServer) (db : Database) :
  databases srv !! selectedDB srv = Some db ->
  set_databases (<[selectedDB srv := db]> (databases srv)) srv = srv.
Proof.
  intros H. destruct srv as [dbs sel d]; simpl in *.
  unfold set_databases; simpl. rewrite list_insert_id; auto.
Qed.

(** C9: when the dump file cannot be created, SAVE changes nothing and
    replies OK; whatever the write does, SAVE leaves the databases as they
    were and replies OK; when the file LOAD names cannot be opened or
    read, LOAD changes nothing and replies OK. *)
Theorem persistence_failure_replies_ok (srv : RedisServer) (db : Database)
    (fileName : string) (rest : list string) :
  databases srv !! selectedDB srv = Some db ->
  (can_create (disk srv) (dump_file_name db) = false ->
   forall args, saveCommand args srv = CReply (returnSimpleString "OK") srv) /\
  (forall args, exists d',
     saveCommand args srv = CReply (returnSimpleString "OK") (set_disk d' srv)) /\
  (files (disk srv) (if String.eqb fileName "" then dump_file_name db else fileName)
     ∈ [FileMissing; FileUnreadable] ->
   loadCommand (fileName :: rest) srv = CReply (returnSimpleString "OK") srv).
Proof.
  intros Hsel. split; [|split].
  - intros Hc args. unfold saveCommand. rewrite Hsel. unfold Save. rewrite Hc.
    destruct srv; reflexivity.
  - intros args. unfold saveCommand. rewrite Hsel. eauto.
  - intros Hf. unfold loadCommand, on_selected. simpl. rewrite Hsel.
    assert (Load fileName (disk srv) db = db) as ->.
    { unfold Load. apply elem_of_cons in Hf as [-> | Hf]; [reflexivity|].
      apply elem_of_cons in Hf as [-> | Hf]; [reflexivity|].
      apply elem_of_nil in Hf; contradiction. }
    rewrite set_databases_same; auto.
Qed.

Definition disk_without_files : Disk :=
  mkDisk (fun _ => FileMissing) (fun _ => false) (fun _ => false).

Definition server_one_db : RedisServer :=
  mkServer [prior_db] 0 disk_without_files.

Lemma persistence_failure_replies_ok_witness :
  databases server_one_db !! selectedDB server_one_db = Some prior_db /\
  loadCommand ["missing.db"] server_one_db
    = CReply (returnSimpleString "OK") server_one_db.
Proof.
  split; [reflexivity|].
  apply (persistence_failure_replies_ok server_one_db prior_db "missing.db" []);
    [reflexivity|].
  simpl. apply elem_of_cons. left. reflexivity.
Defined.

(* ------------------------------------------------------------------ *)
(** ** Lazy expiration in [Get] *)

Section GetLemmas.
Variable now : Z.

Lemma checkAndRemoveExpiredKey_live (key : string) (db : Database) :
  (forall e, ExpireKeys db !! key = Some e -> now <= e) ->
  checkAndRemoveExpiredKey now key db = (false, db).
Proof.
  intros H. unfold checkAndRemoveExpiredKey.
  destruct (ExpireKeys db !! key) as [e|] eqn:E; [|reflexivity].
  specialize (H e eq_refl).
  destruct (now >? e) eqn:G; [apply Z.gtb_lt in G; lia | reflexivity].
Qed.

Lemma Get_absent (key : string) (db : Database) :
  StringKeys db !! key = None -> Get now key db = ("", db).
Proof. intros H. unfold Get. rewrite H. reflexivity. Qed.

Lemma Get_live (key v : string) (db : Database) :
  StringKeys db !! key = Some v ->
  (forall e, ExpireKeys db !! key = Some e -> now <= e) ->
  Get now key db = (v, db).
Proof.
  intros H He. unfold Get. rewrite H, checkAndRemoveExpiredKey_live; auto.
Qed.

Lemma Get_expired (key v : string) (e : Z) (db : Database) :
  StringKeys db !! key = Some v -> ExpireKeys db !! key = Some e -> now > e ->
  Get now key db =
    ("", mkDatabase (db_id db) (delete key (StringKeys db)) (delete key (ExpireKeys db))).
Proof.
  intros H He Hn. unfold Get, checkAndRemoveExpiredKey. rewrite H, He.
  destruct (now >? e) eqn:G; [reflexivity | rewrite Z.gtb_ltb in G; apply Z.ltb_ge in G; lia].
Qed.

(** A stored empty value reads as absent, whatever its expiry. *)
Lemma Get_empty_value (key : string) (db : Database) :
  StringKeys db !! key = Some "" -> fst (Get now key db) = "".
Proof.
  intros H. unfold Get. rewrite H.
  destruct (checkAndRemoveExpiredKey now key db) as [[|] db1]; reflexivity.
Qed.

End GetLemmas.

(* ------------------------------------------------------------------ *)
(** ** [Duration.Seconds] in [float64] *)

Lemma scale_frac_double (n d k : Z) : 0 < d ->
  let '(Na, Da) := scale_frac n d k in
  let '(Nb, Db) := scale_frac n d (k + 1) in
  Nb * Da = 2 * Na * Db /\ 0 < Da /\ 0 < Db.
Proof.
  intros Hd. unfold scale_frac.
  destruct (Z.leb_spec 0 k); destruct (Z.leb_spec 0 (k + 1)); try lia; cbv beta iota.
  - rewrite Z.pow_add_r, Z.pow_1_r by lia. split; [ring|]. split; [lia|lia].
  - replace (k + 1) with 0 by lia. replace (- k) with 1 by lia. rewrite Z.pow_0_r, Z.pow_1_r.
    split; [ring|lia].
  - replace (- k) with (- (k + 1) + 1) by lia. rewrite Z.pow_add_r by lia.
    pose proof (Z.pow_pos_nonneg 2 (- (k + 1)) ltac:(lia) ltac:(lia)).
    rewrite Z.pow_1_r. split; [ring|nia].
Qed.

Lemma round_pos_spec (n d : Z) : 0 < n -> 0 < d ->
  exists k Nn Dd, scale_frac n d k = (Nn, Dd) /\ 0 < Dd /\ 2 ^ 52 * Dd <= Nn < 2 ^ 53 * Dd /\
    round_pos n d = mkFloat64 (round_half_even (Nn / Dd) (Nn mod Dd) Dd) (- k).
Proof.
  intros Hn Hd. unfold round_pos.
  set (k0 := 52 - (Z.log2 n - Z.log2 d)).
  assert (H0 : let '(Na, Da) := scale_frac n d k0 in 2 ^ 51 * Da < Na < 2 ^ 53 * Da).
  { pose proof (Z.log2_spec n Hn) as [Ha1 Ha2]. pose proof (Z.log2_spec d Hd) as [Hb1 Hb2].
    pose proof (Z.log2_nonneg n). pose proof (Z.log2_nonneg d).
    rewrite Z.pow_succ_r in Ha2, Hb2 by lia.
    set (A := 2 ^ Z.log2 n) in *. set (B := 2 ^ Z.log2 d) in *.
    unfold scale_frac. destruct (Z.leb_spec 0 k0).
    - assert (HP : A * 2 ^ k0 = 2 ^ 52 * B).
      { unfold A, B. rewrite <- !Z.pow_add_r by lia. f_equal. unfold k0. lia. }
      pose proof (Z.pow_pos_nonneg 2 k0 ltac:(lia) ltac:(lia)). nia.
    - assert (HP : A = 2 ^ 52 * B * 2 ^ (- k0)).
      { unfold A, B. rewrite <- !Z.pow_add_r by lia. f_equal. unfold k0. lia. }
      pose proof (Z.pow_pos_nonneg 2 (- k0) ltac:(lia) ltac:(lia)). nia. }
  pose proof (scale_frac_double n d k0 Hd) as Hdbl.
  destruct (scale_frac n d k0) as [Na Da] eqn:E0.
  destruct (scale_frac n d (k0 + 1)) as [Nb Db] eqn:E1.
  destruct Hdbl as [Hdbl [HD0 HD1]].
  destruct (Z.leb_spec (2 ^ 52 * Da) Na).
  - exists k0, Na, Da. rewrite E0. repeat split; auto; lia.
  - exists (k0 + 1), Nb, Db. rewrite E1. split; [reflexivity|]. split; [lia|].
    split; [|reflexivity]. split.
    + apply (Z.mul_le_mono_pos_r _ _ Da); [lia|]. nia.
    + apply (Z.mul_lt_mono_pos_r Da); [lia|]. nia.
Qed.

Lemma round_half_even_spec (Nn Dd : Z) : 0 < Dd ->
  let m := round_half_even (Nn / Dd) (Nn mod Dd) Dd in
  Nn / Dd <= m /\ 2 * m * Dd <= 2 * Nn + Dd /\ (Nn mod Dd = 0 -> m = Nn / Dd).
Proof.
  intros HD m. pose proof (Z.div_mod Nn Dd ltac:(lia)) as HNd.
  pose proof (Z.mod_pos_bound Nn Dd HD) as Hr.
  unfold m, round_half_even.
  destruct (Z.ltb_spec (2 * (Nn mod Dd)) Dd).
  - split; [lia|]. split; [nia|auto].
  - destruct (Z.ltb_spec Dd (2 * (Nn mod Dd))).
    + split; [lia|]. split; [nia|lia].
    + destruct (Z.even (Nn / Dd)); (split; [lia|]; split; [nia|lia]).
Qed.

Lemma round_frac_nonneg_spec (n d : Z) : 0 <= n -> 0 < d -> n < 2 ^ 53 * d ->
  exists m k, float64_frac (round_frac n d) = (m, 2 ^ k) /\ 0 <= k /\
    (n * 2 ^ k) / d <= m /\ 2 * m * d <= 2 * (n * 2 ^ k) + d /\
    (0 < n -> 2 ^ 52 * d <= n * 2 ^ k) /\
    ((n * 2 ^ k) mod d = 0 -> m = (n * 2 ^ k) / d).
Proof.
  intros Hn Hd Hlt. destruct (Z.eq_dec n 0) as [->|Hn0].
  - exists 0, 0. simpl. split; [reflexivity|]. rewrite Z.div_0_l by lia. lia.
  - unfold round_frac. replace (n =? 0) with false by (symmetry; apply Z.eqb_neq; exact Hn0).
    replace (0 <? n) with true by (symmetry; apply Z.ltb_lt; lia).
    destruct (round_pos_spec n d ltac:(lia) Hd) as [k [Nn [Dd [Hs [HD [[Hlo Hhi] ->]]]]]].
    assert (Hk : 0 <= k).
    { unfold scale_frac in Hs. destruct (Z.leb_spec 0 k); [lia|].
      injection Hs as <- <-. pose proof (Z.pow_le_mono_r 2 1 (- k) ltac:(lia) ltac:(lia)).
      simpl in H0. nia. }
    unfold scale_frac in Hs. replace (0 <=? k) with true in Hs by (symmetry; apply Z.leb_le; lia).
    injection Hs as <- <-.
    exists (round_half_even (n * 2 ^ k / d) (n * 2 ^ k mod d) d), k.
    unfold float64_frac. simpl. replace (0 <? - k) with false by (symmetry; apply Z.ltb_ge; lia).
    rewrite Z.opp_involutive. split; [reflexivity|]. split; [lia|].
    destruct (round_half_even_spec (n * 2 ^ k) d Hd) as [H1 [H2 H3]].
    repeat split; auto.
Qed.

Lemma frac_of_int (z : Z) : 0 <= z < 2 ^ 53 ->
  exists P, float64_frac (float64_of_int z) = (z * P, P) /\ 0 < P.
Proof.
  intros Hz. unfold float64_of_int.
  destruct (round_frac_nonneg_spec z 1 ltac:(lia) ltac:(lia) ltac:(lia))
    as [m [k [E [Hk [_ [_ [_ Hex]]]]]]].
  rewrite Z.mod_1_r, Z.div_1_r in Hex. rewrite E, (Hex eq_refl).
  exists (2 ^ k). split; [reflexivity|]. apply Z.pow_pos_nonneg; lia.
Qed.

(** The bounds on [float64(sec) + float64(nsec)/1e9] for a non-negative
    duration. *)
Lemma Duration_Seconds_nonneg_spec (d : Z) : 0 <= d <= int_max ->
  exists ms k, float64_frac (Duration_Seconds d) = (ms, 2 ^ k) /\ 0 <= k /\
    (d / Second) * 2 ^ k <= ms <= (d / Second + 1) * 2 ^ k /\
    (d / Second < 2 ^ 24 -> ms < (d / Second + 1) * 2 ^ k).
Proof.
  intros Hd. unfold int_max in Hd. unfold Duration_Seconds.
  rewrite Z.quot_div_nonneg, Z.rem_mod_nonneg by (unfold Second; lia).
  set (sec := d / Second). set (nsec := d mod Second).
  assert (Hsec : 0 <= sec < 2 ^ 34).
  { unfold sec, Second. split; [apply Z.div_pos; lia|]. apply Z.div_lt_upper_bound; lia. }
  assert (Hnsec : 0 <= nsec < Second) by (apply Z.mod_pos_bound; unfold Second; lia).
  destruct (frac_of_int sec ltac:(lia)) as [Ps [Es HPs]].
  destruct (frac_of_int nsec ltac:(unfold Second in *; lia)) as [P0 [E0 HP0]].
  destruct (frac_of_int Second ltac:(unfold Second; lia)) as [P1 [E1 HP1]].
  unfold float64_div. rewrite E0, E1.
  replace (Z.sgn (Second * P1)) with 1 by (symmetry; apply Z.sgn_pos; unfold Second; lia).
  rewrite (Z.abs_eq (Second * P1)) by (unfold Second; lia).
  destruct (round_frac_nonneg_spec (nsec * P0 * P1 * 1) (P0 * (Second * P1)))
    as [mf [kf [Ef [Hkf [Bf1 [Bf2 [Bf3 _]]]]]]]; [nia|unfold Second; nia|unfold Second in *; nia|].
  set (Q := 2 ^ kf) in *.
  assert (HQ : 0 < Q) by (apply Z.pow_pos_nonneg; lia).
  assert (Hmf0 : 0 <= mf).
  { eapply Z.le_trans; [|exact Bf1]. apply Z.div_pos; unfold Second in *; nia. }
  assert (Bf2' : 2 * mf * Second <= 2 * nsec * Q + Second).
  { apply (Z.mul_le_mono_pos_r _ _ (P0 * P1)); [nia|]. nia. }
  assert (Hmf : mf < Q).
  { destruct (Z.eq_dec nsec 0) as [Hz|Hz].
    - rewrite Hz in Bf2'. unfold Second in Bf2'. lia.
    - assert (HQ52 : 2 ^ 52 * Second <= nsec * Q).
      { apply (Z.mul_le_mono_pos_r _ _ (P0 * P1)); [nia|].
        specialize (Bf3 ltac:(nia)). nia. }
      unfold Second in *. nia. }
  unfold float64_add. rewrite Es, Ef.
  destruct (round_frac_nonneg_spec (sec * Ps * Q + mf * Ps) (Ps * Q))
    as [ms [k [Es' [Hk [B1 [B2 [B3 _]]]]]]]; [nia|nia|nia|].
  exists ms, k. split; [exact Es'|]. split; [exact Hk|].
  set (K := 2 ^ k) in *.
  assert (HK : 0 < K) by (apply Z.pow_pos_nonneg; lia).
  assert (B2' : 2 * ms * Q <= 2 * ((sec * Q + mf) * K) + Q).
  { apply (Z.mul_le_mono_pos_r _ _ Ps); [lia|]. nia. }
  split; [split|].
  - eapply Z.le_trans; [|exact B1]. apply Z.div_le_lower_bound; [nia|]. nia.
  - assert (2 * ms <= 2 * ((sec + 1) * K) + 1).
    { apply (Z.mul_le_mono_pos_r _ _ Q); [lia|]. nia. }
    lia.
  - intros Hs24.
    destruct (Z.eq_dec nsec 0) as [Hz|Hz].
    + assert (mf = 0) by (rewrite Hz in Bf2'; unfold Second in Bf2'; lia). subst mf.
      assert (2 * ms <= 2 * (sec * K) + 1).
      { apply (Z.mul_le_mono_pos_r _ _ Q); [lia|]. nia. }
      lia.
    + assert (HQ52 : 2 ^ 52 * Second <= nsec * Q).
      { apply (Z.mul_le_mono_pos_r _ _ (P0 * P1)); [nia|].
        specialize (Bf3 ltac:(nia)). nia. }
      assert (HQ53 : 2 ^ 52 < Q) by (unfold Second in *; nia).
      assert (Hmfp : 0 < mf).
      { assert (2 ^ 52 <= nsec * P0 * P1 * 1 * Q / (P0 * (Second * P1))).
        { apply Z.div_le_lower_bound; [unfold Second; nia|].
          specialize (Bf3 ltac:(nia)). nia. }
        lia. }
      assert (HK29 : 2 ^ 29 <= K).
      { assert (Hpos : 0 < sec * Ps * Q + mf * Ps) by nia.
        specialize (B3 Hpos).
        assert (X0 : 2 ^ 52 * Q <= (sec * Q + mf) * K).
        { apply (Z.mul_le_mono_pos_l _ _ Ps); [lia|].
          replace (Ps * (2 ^ 52 * Q)) with (2 ^ 52 * (Ps * Q)) by ring.
          replace (Ps * ((sec * Q + mf) * K)) with ((sec * Ps * Q + mf * Ps) * K) by ring.
          exact B3. }
        assert (X1 : sec * Q + mf < 2 ^ 24 * Q) by nia.
        assert (X2 : (sec * Q + mf) * K < 2 ^ 24 * Q * K)
          by (apply Z.mul_lt_mono_pos_r; lia).
        assert (X3 : 2 ^ 52 * Q < 2 ^ 24 * K * Q) by lia.
        apply Z.mul_lt_mono_pos_r in X3; [|lia].
        assert (X4 : 2 ^ 28 < K) by lia.
        unfold K in X4 |- *. apply Z.pow_lt_mono_r_iff in X4; [|lia|lia].
        apply Z.pow_le_mono_r; lia. }
      destruct (Z.ltb_spec ms ((sec + 1) * K)) as [|Hge]; [assumption|exfalso].
      assert (Y1 : 2 * ((sec + 1) * K) * Q <= 2 * ms * Q)
        by (apply Z.mul_le_mono_nonneg_r; lia).
      assert (Hc : 2 * ((Q - mf) * K) <= Q) by (clear - Y1 B2'; nia).
      assert (Y2 : nsec * Q <= (Second - 1) * Q)
        by (apply Z.mul_le_mono_nonneg_r; lia).
      assert (Hm : 2 * Q - Second <= 2 * Second * (Q - mf)) by (clear - Y2 Bf2'; nia).
      assert (Y3 : (2 * Q - Second) * K <= 2 * Second * (Q - mf) * K)
        by (apply Z.mul_le_mono_nonneg_r; lia).
      assert (Y4 : Second * (2 * ((Q - mf) * K)) <= Second * Q)
        by (apply Z.mul_le_mono_nonneg_l; [unfold Second; lia | exact Hc]).
      assert (Hc2 : (2 * Q - Second) * K <= Q * Second) by (clear - Y3 Y4; nia).
      assert (Y5 : 2 ^ 52 * (2 * K - Second) < Q * (2 * K - Second)).
      { apply Z.mul_lt_mono_pos_r; [unfold Second in *; lia | exact HQ53]. }
      assert (Y6 : 2 ^ 52 * (2 * K - Second) < Second * K) by (clear - Y5 Hc2; nia).
      unfold Second in *. lia.
Qed.

Lemma float64_frac_neg (x : float64) :
  float64_frac (float64_neg x) = (- fst (float64_frac x), snd (float64_frac x)).
Proof.
  destruct x as [m e]. unfold float64_frac, float64_neg. simpl.
  destruct (0 <? e); simpl; f_equal; ring.
Qed.

Lemma float64_neg_neg (x : float64) : float64_neg (float64_neg x) = x.
Proof. destruct x as [m e]. unfold float64_neg. simpl. rewrite Z.opp_involutive. reflexivity. Qed.

Lemma round_frac_opp (n d : Z) : round_frac (- n) d = float64_neg (round_frac n d).
Proof.
  unfold round_frac.
  destruct (Z.eqb_spec n 0) as [->|Hn]; [reflexivity|].
  replace (- n =? 0) with false by (symmetry; apply Z.eqb_neq; lia).
  destruct (Z.ltb_spec 0 n); destruct (Z.ltb_spec 0 (- n)); try lia.
  - rewrite Z.opp_involutive. reflexivity.
  - rewrite float64_neg_neg. reflexivity.
Qed.

Lemma float64_of_int_opp (z : Z) : float64_of_int (- z) = float64_neg (float64_of_int z).
Proof. apply round_frac_opp. Qed.

Lemma float64_add_neg (x y : float64) :
  float64_add (float64_neg x) (float64_neg y) = float64_neg (float64_add x y).
Proof.
  unfold float64_add. rewrite !float64_frac_neg.
  destruct (float64_frac x) as [n1 d1], (float64_frac y) as [n2 d2]. simpl.
  rewrite <- round_frac_opp. f_equal. ring.
Qed.

Lemma float64_div_neg_l (x y : float64) :
  float64_div (float64_neg x) y = float64_neg (float64_div x y).
Proof.
  unfold float64_div. rewrite float64_frac_neg.
  destruct (float64_frac x) as [n1 d1], (float64_frac y) as [n2 d2]. simpl.
  rewrite <- round_frac_opp. f_equal. ring.
Qed.

Lemma float64_frac_den_pos (x : float64) : 0 < snd (float64_frac x).
Proof.
  destruct x as [m e]. unfold float64_frac. simpl.
  destruct (Z.ltb_spec 0 e); simpl; [lia|]. apply Z.pow_pos_nonneg; lia.
Qed.

Lemma int_of_float64_neg (x : float64) :
  int_of_float64 (float64_neg x) = - int_of_float64 x.
Proof.
  unfold int_of_float64. rewrite float64_frac_neg.
  pose proof (float64_frac_den_pos x) as Hd.
  destruct (float64_frac x) as [n d]. simpl in *. apply Z.quot_opp_l. lia.
Qed.

Lemma Duration_Seconds_opp (d : Z) :
  int_of_float64 (Duration_Seconds (- d)) = - int_of_float64 (Duration_Seconds d).
Proof.
  unfold Duration_Seconds. rewrite Z.quot_opp_l, Z.rem_opp_l by (unfold Second; lia).
  rewrite !float64_of_int_opp, float64_div_neg_l, float64_add_neg.
  apply int_of_float64_neg.
Qed.

Lemma int_of_float64_pow2 (m k : Z) (x : float64) :
  float64_frac x = (m, 2 ^ k) -> 0 <= k -> 0 <= m -> int_of_float64 x = m / 2 ^ k.
Proof.
  intros E Hk Hm. unfold int_of_float64. rewrite E.
  apply Z.quot_div_nonneg; [lia|]. apply Z.pow_pos_nonneg; lia.
Qed.

(** [int(d.Seconds())] is [d] truncated to whole seconds when [|d|] is
    below 2^24 seconds. *)
Lemma Duration_Seconds_trunc (d : Z) :
  - (2 ^ 24 * Second) < d < 2 ^ 24 * Second ->
  int_of_float64 (Duration_Seconds d) = Z.quot d Second.
Proof.
  assert (Hpos : forall d, 0 <= d < 2 ^ 24 * Second ->
            int_of_float64 (Duration_Seconds d) = Z.quot d Second).
  { intros d' Hd. rewrite Z.quot_div_nonneg by (unfold Second in *; lia).
    destruct (Duration_Seconds_nonneg_spec d' ltac:(unfold int_max, Second in *; lia))
      as [ms [k [E [Hk [[Hlo Hhi] Hs]]]]].
    assert (HK : 0 < 2 ^ k) by (apply Z.pow_pos_nonneg; lia).
    assert (Hsm : d' / Second < 2 ^ 24)
      by (apply Z.div_lt_upper_bound; unfold Second in *; lia).
    specialize (Hs Hsm).
    assert (0 <= d' / Second) by (apply Z.div_pos; unfold Second in *; lia).
    rewrite (int_of_float64_pow2 ms k) by (auto; nia).
    apply Z.le_antisymm.
    - apply Z.lt_succ_r. apply Z.div_lt_upper_bound; [lia|]. nia.
    - apply Z.div_le_lower_bound; [lia|]. nia. }
  intros Hd. destruct (Z.leb_spec 0 d); [apply Hpos; lia|].
  replace d with (- - d) by ring. rewrite Duration_Seconds_opp, Hpos by lia.
  rewrite !Z.quot_opp_l by (unfold Second; lia). reflexivity.
Qed.

(** For every non-negative [Duration], [int(d.Seconds())] is the
    truncated whole seconds or one more. *)
Lemma Duration_Seconds_at_most_one_more (d : Z) : 0 <= d <= int_max ->
  Z.quot d Second <= int_of_float64 (Duration_Seconds d) <= Z.quot d Second + 1.
Proof.
  intros Hd. rewrite Z.quot_div_nonneg by (unfold Second, int_max in *; lia).
  destruct (Duration_Seconds_nonneg_spec d Hd) as [ms [k [E [Hk [[Hlo Hhi] _]]]]].
  assert (HK : 0 < 2 ^ k) by (apply Z.pow_pos_nonneg; lia).
  assert (0 <= d / Second) by (apply Z.div_pos; unfold Second, int_max in *; lia).
  rewrite (int_of_float64_pow2 ms k) by (auto; nia).
  split.
  - apply Z.div_le_lower_bound; [lia|]. nia.
  - apply Z.div_le_upper_bound; [lia|]. nia.
Qed.

Lemma time_Until_small (t e : Z) : int_min <= e - t <= int_max -> time_Until t e = e - t.
Proof. intros H. unfold time_Until, Time_Sub. lia. Qed.

(** The TTL count for an expiry instant [e] read at [t], in whole seconds. *)
Lemma ttl_count_trunc (t e : Z) :
  - (2 ^ 24 * Second) < e - t < 2 ^ 24 * Second ->
  int_of_float64 (Duration_Seconds (time_Until t e)) = Z.quot (e - t) Second.
Proof.
  intros H. rewrite time_Until_small by (unfold int_min, int_max, Second in *; lia).
  apply Duration_Seconds_trunc. exact H.
Qed.

Lemma ttl_count_bounds (t e : Z) : 0 <= e - t <= int_max ->
  Z.quot (e - t) Second <= int_of_float64 (Duration_Seconds (time_Until t e))
    <= Z.quot (e - t) Second + 1.
Proof.
  intros H. rewrite time_Until_small by (unfold int_min, int_max in *; lia).
  apply Duration_Seconds_at_most_one_more. exact H.
Qed.

Section TTLLemmas.
Variable now : Z.

(** TTL of a live key with a non-empty value and an expiry instant. *)
Lemma TTL_live_expiry (t : Z) (key v : string) (e : Z) (db : Database) :
  StringKeys db !! key = Some v -> v <> "" -> ExpireKeys db !! key = Some e -> now <= e ->
  TTL now t key db = (int_of_float64 (Duration_Seconds (time_Until t e)), db).
Proof.
  intros Hv Hne He Hle. unfold TTL.
  rewrite (Get_live now key v) by (try assumption; intros e' Hx; congruence).
  rewrite (proj2 (String.eqb_neq v "") Hne). unfold GetExpire. rewrite He.
  reflexivity.
Qed.

(** ... and its count, when the duration is below 2^24 seconds. *)
Lemma TTL_live_quot (t : Z) (key v : string) (e : Z) (db : Database) :
  StringKeys db !! key = Some v -> v <> "" -> ExpireKeys db !! key = Some e -> now <= e ->
  - (2 ^ 24 * Second) < e - t < 2 ^ 24 * Second ->
  fst (TTL now t key db) = Z.quot (e - t) Second.
Proof.
  intros Hv Hne He Hle Hr. rewrite (TTL_live_expiry t key v e db Hv Hne He Hle).
  apply ttl_count_trunc. exact Hr.
Qed.

End TTLLemmas.

(** Read less than a second after [now_add], an instant [seconds] whole
    seconds after [now_add] is [seconds - 1] whole seconds away. *)
Lemma quot_seconds_minus_one (now_add t seconds : Z) :
  now_add < t <= now_add + Second -> 1 <= seconds ->
  Z.quot (now_add + Second * seconds - t) Second = seconds - 1.
Proof.
  unfold Second. intros Ht Hs. rewrite Z.quot_div_nonneg by lia.
  symmetry. apply Z.div_unique with (r := now_add + 1000000000 * seconds - t - 1000000000 * (seconds - 1));
    lia.
Qed.

(* ------------------------------------------------------------------ *)
(** ** Increment on a non-integer value *)

Definition db_not_integer : Database := mkDatabase 0 {[ "k" := "abc" ]} ∅.
Definition db_minus_one : Database := mkDatabase 0 {[ "k" := "-1" ]} ∅.

(** C3 (counterexample): INCR on the non-integer value ["abc"] returns
    the integer 0, stores nothing and replies [":0"], exactly what INCR
    computes from the value ["-1"]. *)
Lemma Incr_non_integer_same_reply_as_computed_zero :
  Incr 0 "k" db_not_integer = (0, db_not_integer) /\
  fst (Incr 0 "k" db_minus_one) = 0 /\
  incrCommand 0 ["k"] (mkServer [db_not_integer] 0 disk_without_files)
    = CReply (returnInteger 0) (mkServer [db_not_integer] 0 disk_without_files) /\
  (exists srv', incrCommand 0 ["k"] (mkServer [db_minus_one] 0 disk_without_files)
                  = CReply (returnInteger 0) srv').
Proof.
  split; [reflexivity|]. split; [reflexivity|]. split; [reflexivity|].
  eexists. reflexivity.
Qed.

(** C3 (as the code has it): on a live key whose value is non-empty and not
    an integer, INCR, INCRBY, DECR and DECRBY all return 0 and leave the
    database unchanged; and 0 is also what INCR computes when the value
    is ["-1"], so the result does not tell the two apart. *)
Theorem Incr_family_non_integer_returns_zero (now : Z) (key v : string) (d : Z)
    (db : Database) :
  StringKeys db !! key = Some v -> v <> "" ->
  (forall e, ExpireKeys db !! key = Some e -> now <= e) ->
  Atoi v = None ->
  Incr now key db = (0, db) /\ IncrBy now key d db = (0, db) /\
  Decr now key db = (0, db) /\ DecrBy now key d db = (0, db) /\
  fst (Incr now key (Set_ key "-1" db)) = 0.
Proof.
  intros Hv Hne He Ha.
  assert (Hg : Get now key db = (v, db)) by (apply Get_live; auto).
  assert (Hc : checkAndRemoveExpiredKey now key db = (false, db))
    by (apply checkAndRemoveExpiredKey_live; auto).
  assert (Hs : String.eqb v "" = false) by (apply String.eqb_neq; auto).
  unfold Incr, IncrBy, Decr, DecrBy. rewrite Hg, Hs, Hc, Ha.
  split; [reflexivity|]. split; [reflexivity|]. split; [reflexivity|].
  split; [reflexivity|].
  rewrite (Get_live now key "-1"); [| apply lookup_insert_eq | exact He].
  rewrite checkAndRemoveExpiredKey_live; [reflexivity | exact He].
Qed.

Lemma Incr_family_non_integer_returns_zero_witness :
  Incr 0 "k" db_not_integer = (0, db_not_integer) /\
  IncrBy 0 "k" 5 db_not_integer = (0, db_not_integer) /\
  Decr 0 "k" db_not_integer = (0, db_not_integer) /\
  DecrBy 0 "k" 5 db_not_integer = (0, db_not_integer) /\
  fst (Incr 0 "k" (Set_ "k" "-1" db_not_integer)) = 0.
Proof.
  apply (Incr_family_non_integer_returns_zero 0 "k" "abc" 5 db_not_integer).
  - reflexivity.
  - discriminate.
  - intros e He. discriminate He.
  - reflexivity.
Defined.

(* ------------------------------------------------------------------ *)
(** ** TTL *)

Definition db_empty_value : Database := mkDatabase 0 {[ "k" := "" ]} ∅.

(** C6 (counterexample): a key stored with the empty value and no expiry
    exists, yet TTL returns the absent sentinel -2 rather than -1. *)
Lemma TTL_empty_value_reads_absent :
  StringKeys db_empty_value !! "k" = Some "" /\
  ExpireKeys db_empty_value !! "k" = None /\
  fst (TTL 0 0 "k" db_empty_value) = -2.
Proof. split; [reflexivity|]. split; reflexivity. Qed.

(** C6 (as the code has it): TTL is -2 for a key that is not stored, whose
    expiry instant has passed at [Get]'s reading [now] of the clock, or
    whose value is empty; -1 for a live key with a non-empty value and no
    expiry. Otherwise it is [int(time.Until(e).Seconds())] with [time.Until]
    reading the clock at [t]: the whole seconds from [t] to [e], truncated
    toward zero, when they differ by less than 2^24 seconds; for a longer
    non-negative duration [float64] rounding can add one second, never
    more, and does so at 16777216.999999999 seconds. *)
Theorem TTL_cases (now t : Z) (key : string) (db : Database) :
  (StringKeys db !! key = None -> fst (TTL now t key db) = -2) /\
  (forall v e, StringKeys db !! key = Some v -> ExpireKeys db !! key = Some e ->
     now > e -> fst (TTL now t key db) = -2) /\
  (StringKeys db !! key = Some "" -> fst (TTL now t key db) = -2) /\
  (forall v, StringKeys db !! key = Some v -> v <> "" ->
     ExpireKeys db !! key = None -> fst (TTL now t key db) = -1) /\
  (forall v e, StringKeys db !! key = Some v -> v <> "" ->
     ExpireKeys db !! key = Some e -> now <= e ->
     fst (TTL now t key db) = int_of_float64 (Duration_Seconds (time_Until t e)) /\
     (- (2 ^ 24 * Second) < e - t < 2 ^ 24 * Second ->
        fst (TTL now t key db) = Z.quot (e - t) Second) /\
     (0 <= e - t <= int_max ->
        Z.quot (e - t) Second <= fst (TTL now t key db) <= Z.quot (e - t) Second + 1)) /\
  int_of_float64 (Duration_Seconds 16777216999999999) = 16777217.
Proof.
  split; [|split; [|split; [|split; [|split]]]].
  - intros H. unfold TTL. rewrite Get_absent by exact H. reflexivity.
  - intros v e H He Hn. unfold TTL. rewrite (Get_expired now key v e) by assumption.
    reflexivity.
  - intros H. unfold TTL. pose proof (Get_empty_value now key db H) as Hg.
    destruct (Get now key db) as [s db1]. simpl in Hg. subst s. reflexivity.
  - intros v H Hne He. unfold TTL.
    rewrite (Get_live now key v) by (try assumption; intros e Hx; congruence).
    rewrite (proj2 (String.eqb_neq v "") Hne). unfold GetExpire. rewrite He.
    reflexivity.
  - intros v e H Hne He Hle.
    rewrite (TTL_live_expiry now t key v e db H Hne He Hle). simpl.
    split; [reflexivity|]. split.
    + apply ttl_count_trunc.
    + apply ttl_count_bounds.
  - vm_compute. reflexivity.
Qed.

(* ------------------------------------------------------------------ *)
(** ** A key holding the empty string *)

Definition db_stale_expiry : Database := mkDatabase 0 ∅ {[ "k" := 5 ]}.

(** C10 (counterexample): a key whose expiry instant has already passed
    keeps that expiry when [Set] stores [""]; DEL then reports 0 but the
    key is gone afterwards, removed by the lazy expiration inside [Get]. *)
Lemma Del_empty_value_stale_expiry_removes :
  StringKeys (Set_ "k" "" db_stale_expiry) !! "k" = Some "" /\
  fst (Del 10 ["k"] (Set_ "k" "" db_stale_expiry)) = 0 /\
  StringKeys (snd (Del 10 ["k"] (Set_ "k" "" db_stale_expiry))) !! "k" = None.
Proof. split; [reflexivity|]. split; reflexivity. Qed.

(** C10 (as the code has it): after [Set key ""], GET replies Null, Get
    returns the absent [""], EXISTS does not count the key, DEL reports 0
    and changes nothing beyond what [Get]'s lazy expiration does, and TTL
    is -2; unless the key's inherited expiry has passed, it stays stored
    with the empty value. *)
Theorem empty_value_reads_as_absent (now : Z) (key : string) (db : Database) :
  let db1 := Set_ key "" db in
  fst (Get now key db1) = "" /\
  fst (Exists now [key] db1) = 0 /\
  fst (Del now [key] db1) = 0 /\
  snd (Del now [key] db1) = snd (Get now key db1) /\
  (forall t, fst (TTL now t key db1) = -2) /\
  ((forall e, ExpireKeys db !! key = Some e -> now <= e) ->
     StringKeys (snd (Del now [key] db1)) !! key = Some "") /\
  (forall srv, databases srv !! selectedDB srv = Some db1 ->
     exists srv', getCommand now [key] srv = CReply returnNullBulkString srv').
Proof.
  intros db1.
  assert (Hk : StringKeys db1 !! key = Some "") by apply lookup_insert_eq.
  pose proof (Get_empty_value now key db1 Hk) as Hg.
  destruct (Get now key db1) as [s db2] eqn:EG. simpl in Hg. subst s.
  unfold Exists, Del, TTL. simpl. rewrite EG. simpl.
  split; [reflexivity|]. split; [reflexivity|]. split; [reflexivity|].
  split; [reflexivity|]. split; [intros t; reflexivity|]. split.
  - intros He. rewrite (Get_live now key "" db1) in EG; [| exact Hk | exact He].
    injection EG as <-. exact Hk.
  - intros srv Hsel. unfold getCommand, on_selected. simpl. rewrite Hsel, EG.
    eexists. reflexivity.
Qed.

(* ------------------------------------------------------------------ *)
(** ** MSetNX *)

(** The keys [args[0]], [args[2]], ... that [MSetNX] checks. *)
Fixpoint keys_of (args : list string) : list string :=
  match args with
  | [] => []
  | [k] => [k]
  | k :: _ :: args' => k :: keys_of args'
  end.

(** The value the last pair for [k] carries in [args], if any. *)
Fixpoint pair_lookup (args : list string) (k : string) : option string :=
  match args with
  | k' :: v :: args' =>
      match pair_lookup args' k with
      | Some x => Some x
      | None => if String.eqb k k' then Some v else None
      end
  | _ => None
  end.

(** A key is present when [Get] returns a non-empty value. *)
Definition present (now : Z) (key : string) (db : Database) : bool :=
  negb (String.eqb (fst (Get now key db)) "").

(** [db'] is [db] where at most some keys of [ks] whose expiry instant has
    passed were purged from both maps. *)
Definition purges_only (now : Z) (ks : list string) (db db' : Database) : Prop :=
  db_id db' = db_id db /\
  forall k, (StringKeys db' !! k = StringKeys db !! k /\
             ExpireKeys db' !! k = ExpireKeys db !! k) \/
            (k ∈ ks /\ exists e, ExpireKeys db !! k = Some e /\ now > e /\
                       StringKeys db' !! k = None /\ ExpireKeys db' !! k = None).

Lemma pairwise_ind (P : list string -> Prop) :
  P [] -> (forall k, P [k]) -> (forall k v r, P r -> P (k :: v :: r)) ->
  forall l, P l.
Proof.
  intros H0 H1 H2. fix IH 1. intros [|k [|v r]]; [exact H0 | apply H1 | apply H2, IH].
Qed.

Section MSetNXProofs.
Variable now : Z.

Lemma purges_only_refl (ks : list string) (db : Database) : purges_only now ks db db.
Proof. split; [reflexivity|]. intros k. left. split; reflexivity. Qed.

Lemma purges_only_trans (ks : list string) (db1 db2 db3 : Database) :
  purges_only now ks db1 db2 -> purges_only now ks db2 db3 ->
  purges_only now ks db1 db3.
Proof.
  intros [Hi1 H1] [Hi2 H2]. split; [congruence|]. intros k.
  destruct (H1 k) as [[Hs1 He1] | [Hk1 [e [He [Hn [Hs1 He1]]]]]];
  destruct (H2 k) as [[Hs2 He2] | [Hk2 [e' [He' [Hn' [Hs2 He2]]]]]].
  - left. split; congruence.
  - right. split; [exact Hk2|]. exists e'. rewrite <- He1. auto.
  - right. split; [exact Hk1|]. exists e. split; [exact He|]. split; [exact Hn|].
    split; congruence.
  - congruence.
Qed.

Lemma purges_only_mono (ks ks' : list string) (db db' : Database) :
  ks ⊆ ks' -> purges_only now ks db db' -> purges_only now ks' db db'.
Proof.
  intros Hsub [Hi H]. split; [exact Hi|]. intros k.
  destruct (H k) as [Hl | [Hk Hr]]; [left; exact Hl | right; split; auto].
Qed.

Lemma Get_purges_only (key : string) (db : Database) :
  purges_only now [key] db (snd (Get now key db)).
Proof.
  unfold Get. destruct (StringKeys db !! key) as [v|] eqn:Hv;
    [|apply purges_only_refl].
  unfold checkAndRemoveExpiredKey.
  destruct (ExpireKeys db !! key) as [e|] eqn:He; [|apply purges_only_refl].
  destruct (now >? e) eqn:G; [|apply purges_only_refl].
  apply Z.gtb_lt in G. split; [reflexivity|]. intros k. simpl.
  destruct (String.eqb_spec k key) as [->|Hne].
  - right. split; [apply list_elem_of_singleton; reflexivity|].
    exists e. split; [exact He|]. split; [lia|].
    split; apply lookup_delete_eq.
  - left. split; apply lookup_delete_ne; congruence.
Qed.

(** [Get]'s result on [k] depends only on the entries of [k]. *)
Lemma Get_fst_local (k : string) (db db' : Database) :
  StringKeys db' !! k = StringKeys db !! k ->
  ExpireKeys db' !! k = ExpireKeys db !! k ->
  fst (Get now k db') = fst (Get now k db).
Proof.
  intros Hs He. unfold Get, checkAndRemoveExpiredKey. rewrite Hs, He.
  destruct (StringKeys db !! k); [|reflexivity].
  destruct (ExpireKeys db !! k); [|reflexivity].
  destruct (now >? z); reflexivity.
Qed.

Lemma present_purges_only (ks : list string) (db db' : Database) (k : string) :
  purges_only now ks db db' -> present now k db' = present now k db.
Proof.
  intros [_ H]. unfold present.
  destruct (H k) as [[Hs He] | [_ [e [He [Hn [Hs He']]]]]].
  - rewrite (Get_fst_local k db db'); auto.
  - rewrite Get_absent by exact Hs.
    destruct (StringKeys db !! k) as [v|] eqn:Hv.
    + rewrite (Get_expired now k v e db); auto.
    + rewrite Get_absent by exact Hv. reflexivity.
Qed.

Lemma MSetNX_check_spec (args : list string) (db : Database) :
  purges_only now (keys_of args) db (snd (MSetNX_check now args db)) /\
  (fst (MSetNX_check now args db) = true <->
   Forall (fun k => present now k db = false) (keys_of args)).
Proof.
  revert db. induction args as [|k|k v r IH] using pairwise_ind; intros db.
  - split; [apply purges_only_refl|]. simpl. split; auto.
  - simpl. pose proof (Get_purges_only k db) as Hp.
    rewrite Forall_singleton. unfold present.
    destruct (Get now k db) as [s db1]. simpl in *.
    split; [exact Hp|].
    destruct (String.eqb s ""); simpl; split; intros H; (reflexivity || discriminate H).
  - simpl. pose proof (Get_purges_only k db) as Hp.
    assert (Hpr : present now k db = negb (String.eqb (fst (Get now k db)) ""))
      by reflexivity.
    destruct (Get now k db) as [s db1]. simpl in *.
    destruct (String.eqb s "") eqn:Hs.
    + destruct (IH db1) as [Hp1 Hb1]. split.
      * apply purges_only_trans with db1.
        -- apply purges_only_mono with [k]; [set_solver | exact Hp].
        -- apply purges_only_mono with (keys_of r); [set_solver | exact Hp1].
      * rewrite Forall_cons, Hb1, Hpr. simpl.
        assert (Hinv : forall k', present now k' db1 = present now k' db)
          by (intros k'; apply (present_purges_only [k]); exact Hp).
        split.
        -- intros Hf. split; [reflexivity|].
           eapply Forall_impl; [exact Hf|]. intros k' Hk'. rewrite <- Hinv. exact Hk'.
        -- intros [_ Hf]. eapply Forall_impl; [exact Hf|].
           intros k' Hk'. rewrite Hinv. exact Hk'.
    + split.
      * apply purges_only_mono with [k]; [set_solver | exact Hp].
      * simpl. rewrite Forall_cons, Hpr. simpl. split; [discriminate|].
        intros [H _]. discriminate H.
Qed.

Lemma MSetNX_set_spec (args : list string) (db : Database) :
  Nat.Even (length args) ->
  exists db', MSetNX_set args db = Some db' /\
    db_id db' = db_id db /\ ExpireKeys db' = ExpireKeys db /\
    forall k, StringKeys db' !! k =
      match pair_lookup args k with Some v => Some v | None => StringKeys db !! k end.
Proof.
  revert db. induction args as [|k|k v r IH] using pairwise_ind; intros db Hev.
  - exists db. simpl. repeat split; reflexivity.
  - exfalso. destruct Hev as [m Hm]. simpl in Hm. lia.
  - assert (Hr : Nat.Even (length r)).
    { destruct Hev as [m Hm]. exists (m - 1)%nat. simpl in Hm. lia. }
    destruct (IH (Set_ k v db) Hr) as [db' [Hset [Hi [He Hk]]]].
    exists db'. simpl. split; [exact Hset|]. split; [exact Hi|].
    split; [exact He|]. intros k'. rewrite Hk.
    destruct (pair_lookup r k'); [reflexivity|].
    unfold Set_, set_StringKeys. simpl.
    destruct (String.eqb_spec k' k) as [->|Hne].
    + apply lookup_insert_eq.
    + apply lookup_insert_ne. congruence.
Qed.

End MSetNXProofs.

Lemma pair_lookup_not_listed (args : list string) (k : string) :
  k ∉ keys_of args -> pair_lookup args k = None.
Proof.
  induction args as [|k'|k' v r IH] using pairwise_ind; intros Hk; [reflexivity|reflexivity|].
  simpl in *. rewrite IH by set_solver.
  destruct (String.eqb_spec k k') as [->|]; [set_solver | reflexivity].
Qed.

Lemma pair_lookup_listed (args : list string) (k : string) :
  Nat.Even (length args) -> k ∈ keys_of args -> exists v, pair_lookup args k = Some v.
Proof.
  induction args as [|k'|k' v r IH] using pairwise_ind; intros Hev Hk.
  - apply elem_of_nil in Hk. contradiction.
  - exfalso. destruct Hev as [m Hm]. simpl in Hm. lia.
  - assert (Hr : Nat.Even (length r)).
    { destruct Hev as [m Hm]. exists (m - 1)%nat. simpl in Hm. lia. }
    simpl in *. destruct (pair_lookup r k) as [x|] eqn:E; [eauto|].
    apply elem_of_cons in Hk as [-> | Hk].
    + rewrite String.eqb_refl. eauto.
    + destruct (IH Hr Hk) as [x Hx]. congruence.
Qed.

Definition db_a_present : Database := mkDatabase 0 {[ "a" := "v" ]} ∅.

(** C7 (counterexample): a listed key that is stored with the empty value
    does not count as existing: MSETNX installs the pair over it and
    returns true. *)
Lemma MSetNX_overwrites_empty_value :
  StringKeys db_empty_value !! "k" = Some "" /\
  ExpireKeys db_empty_value !! "k" = None /\
  exists db', MSetNX 0 ["k"; "x"] db_empty_value = Some (true, db') /\
              StringKeys db' !! "k" = Some "x".
Proof.
  split; [reflexivity|]. split; [reflexivity|]. eexists. split; reflexivity.
Qed.

(** C7 (as the code has it): for an even-length argument list, when some
    listed key is present (a live, non-empty value) MSetNX returns false
    and installs nothing, the only change being the lazy purge of listed
    keys whose expiry has passed; when no listed key is present it returns
    true, every listed key holds the value of its last pair, the listed
    keys' expiries are kept or purged when passed, and the other keys are
    untouched. *)
Theorem MSetNX_guard (now : Z) (args : list string) (db : Database) :
  Nat.Even (length args) ->
  (List.Exists (fun k => present now k db = true) (keys_of args) ->
   exists db', MSetNX now args db = Some (false, db') /\
               purges_only now (keys_of args) db db') /\
  (Forall (fun k => present now k db = false) (keys_of args) ->
   exists db', MSetNX now args db = Some (true, db') /\
     (forall k, k ∈ keys_of args ->
        StringKeys db' !! k = pair_lookup args k /\
        (ExpireKeys db' !! k = ExpireKeys db !! k \/
         exists e, ExpireKeys db !! k = Some e /\ now > e /\
                   ExpireKeys db' !! k = None)) /\
     (forall k, k ∉ keys_of args ->
        StringKeys db' !! k = StringKeys db !! k /\
        ExpireKeys db' !! k = ExpireKeys db !! k)).
Proof.
  intros Hev. unfold MSetNX.
  pose proof (MSetNX_check_spec now args db) as [Hp Hb].
  destruct (MSetNX_check now args db) as [b db1]. simpl in Hp, Hb.
  split.
  - intros Hex. destruct b.
    + exfalso. apply Exists_exists in Hex as [k [Hk Ht]].
      rewrite Forall_forall in Hb. specialize (proj1 Hb eq_refl k Hk). congruence.
    + exists db1. split; [reflexivity | exact Hp].
  - intros Hall. apply Hb in Hall. subst b.
    destruct (MSetNX_set_spec args db1 Hev) as [db2 [Hset [Hi [He Hk]]]].
    rewrite Hset. exists db2. split; [reflexivity|]. destruct Hp as [_ Hp]. split.
    + intros k Hin. destruct (pair_lookup_listed args k Hev Hin) as [v Hv].
      rewrite Hk, Hv. split; [reflexivity|]. rewrite He.
      destruct (Hp k) as [[_ He1] | [_ [e [He0 [Hn [_ He1]]]]]].
      * left. exact He1.
      * right. exists e. auto.
    + intros k Hnin. rewrite Hk, pair_lookup_not_listed by exact Hnin. rewrite He.
      destruct (Hp k) as [[Hs1 He1] | [Hin _]]; [auto | contradiction].
Qed.

Lemma MSetNX_guard_witness :
  Nat.Even (length ["a"; "1"; "b"; "2"]) /\
  (exists db', MSetNX 0 ["a"; "1"; "b"; "2"] db_a_present = Some (false, db') /\
               purges_only 0 (keys_of ["a"; "1"; "b"; "2"]) db_a_present db').
Proof.
  assert (Hev : Nat.Even (length ["a"; "1"; "b"; "2"])) by (exists 2%nat; reflexivity).
  split; [exact Hev|].
  apply (proj1 (MSetNX_guard 0 ["a"; "1"; "b"; "2"] db_a_present Hev)).
  apply Exists_cons_hd. reflexivity.
Defined.

(* ------------------------------------------------------------------ *)
(** ** Reading a line: [readUntilCRLF] *)

(** [t] contains no CR LF pair. *)
Definition no_crlf (t : bytes) : Prop := forall l1 l2, t <> app l1 (CR :: LF :: l2).

Section CodecProofs.
Local Open Scope list_scope.


Lemma ReadBytesLF_split (t1 r : bytes) :
  LF ∉ t1 -> ReadBytesLF (t1 ++ LF :: r) = Some (t1 ++ [LF], r).
Proof.
  induction t1 as [|c t1 IH]; intros Hn; simpl.
  - destruct (ascii_dec LF LF); [reflexivity | contradiction].
  - destruct (ascii_dec c LF) as [->|Hc]; [set_solver|].
    rewrite IH by set_solver. reflexivity.
Qed.

Lemma ends_in_CR_LF_last2 (l : bytes) (c d : ascii) :
  ends_in_CR_LF (l ++ [c; d]) = if ascii_dec c CR then true else false.
Proof.
  unfold ends_in_CR_LF. rewrite length_app. simpl length.
  replace (length l + 2)%nat with (S (S (length l))) by lia.
  replace (S (S (length l)) - 2)%nat with (length l) by lia.
  rewrite lookup_app_r by lia. rewrite Nat.sub_diag. reflexivity.
Qed.

Lemma readUntilCRLF_loop_line (f : nat) (acc t rest : bytes) :
  no_crlf (acc ++ t) -> (length t < f)%nat ->
  readUntilCRLF_loop f acc (t ++ CR :: LF :: rest) = DOk (acc ++ t) rest.
Proof.
  revert acc t. induction f as [|f IH]; intros acc t Hno Hlen; [lia|].
  simpl. destruct (decide (LF ∈ t)) as [Hin|Hnin].
  - (* the line continues after an LF that follows no CR *)
    apply list_elem_of_split_l in Hin as [t1 [t2 [-> Ht1]]].
    rewrite <- app_assoc. simpl. rewrite ReadBytesLF_split by exact Ht1.
    assert (Hend : ends_in_CR_LF (acc ++ t1 ++ [LF]) = false).
    { rewrite app_assoc. destruct (decide (acc ++ t1 = [])) as [He|Hne].
      - rewrite He. reflexivity.
      - destruct (exists_last Hne) as [l [c Hl]]. rewrite Hl, <- app_assoc.
        simpl. rewrite ends_in_CR_LF_last2.
        destruct (ascii_dec c CR) as [->|]; [|reflexivity].
        exfalso. apply (Hno l t2). rewrite app_assoc, Hl, <- app_assoc. reflexivity. }
    rewrite Hend.
    rewrite (IH (acc ++ t1 ++ [LF]) t2).
    + f_equal. rewrite <- !app_assoc. reflexivity.
    + rewrite <- !app_assoc. exact Hno.
    + rewrite length_app in Hlen. simpl in Hlen. lia.
  - (* the first LF is the terminator *)
    replace (t ++ CR :: LF :: rest) with ((t ++ [CR]) ++ LF :: rest)
      by (rewrite <- app_assoc; reflexivity).
    rewrite ReadBytesLF_split.
    + rewrite <- app_assoc. simpl.
      rewrite (app_assoc acc t [CR; LF]), ends_in_CR_LF_last2.
      destruct (ascii_dec CR CR) as [_|]; [|contradiction].
      f_equal. rewrite length_app. simpl.
      replace (length (acc ++ t) + 2 - 2)%nat with (length (acc ++ t)) by lia.
      rewrite take_app_length. reflexivity.
    + rewrite elem_of_app, list_elem_of_singleton. intros [H|H]; [contradiction | discriminate].
Qed.

Lemma readUntilCRLF_line (t rest : bytes) :
  no_crlf t -> readUntilCRLF (t ++ CR :: LF :: rest) = DOk t rest.
Proof.
  intros Hno. unfold readUntilCRLF. apply (readUntilCRLF_loop_line _ [] t rest).
  - exact Hno.
  - rewrite length_app. simpl. lia.
Qed.

(* ------------------------------------------------------------------ *)
(** ** [strconv.Atoi] reads back [strconv.Itoa] *)

Lemma wire_app (a b : string) : wire (String.append a b) = wire a ++ wire b.
Proof. induction a as [|c a IH]; simpl; [reflexivity | rewrite IH; reflexivity]. Qed.

Lemma wire_length (s : string) : length (wire s) = String.length s.
Proof. induction s as [|c s IH]; simpl; [reflexivity | rewrite IH; reflexivity]. Qed.

Lemma digit_value_digit_char (d : Z) :
  0 <= d < 10 -> digit_value (digit_char d) = Some d.
Proof.
  intros Hd. unfold digit_value, digit_char.
  rewrite nat_ascii_embedding by lia.
  replace (48 <=? Z.to_nat d + 48)%nat with true by (symmetry; apply Nat.leb_le; lia).
  replace (Z.to_nat d + 48 <=? 57)%nat with true by (symmetry; apply Nat.leb_le; lia).
  simpl. f_equal. lia.
Qed.

Lemma digit_char_code (d : Z) :
  0 <= d < 10 -> nat_of_ascii (digit_char d) = (Z.to_nat d + 48)%nat.
Proof. intros Hd. unfold digit_char. apply nat_ascii_embedding. lia. Qed.

Lemma parse_digits_app (s1 s2 : string) (acc : Z) :
  parse_digits (String.append s1 s2) acc =
  match parse_digits s1 acc with Some a => parse_digits s2 a | None => None end.
Proof.
  revert acc. induction s1 as [|c s1 IH]; intros acc; simpl; [reflexivity|].
  destruct (digit_value c); [apply IH | reflexivity].
Qed.

Definition is_digit_char (c : ascii) : Prop := exists d, 0 <= d < 10 /\ c = digit_char d.

Lemma itoa_digits_spec (f : nat) (n : Z) :
  0 <= n < 10 ^ (Z.of_nat f + 1) ->
  parse_digits (itoa_digits f n) 0 = Some n /\
  (exists d s', itoa_digits f n = String (digit_char d) s' /\ 0 <= d < 10) /\
  Forall is_digit_char (wire (itoa_digits f n)).
Proof.
  revert n. induction f as [|f IH]; intros n Hn.
  - simpl in Hn. simpl. rewrite digit_value_digit_char by lia.
    split; [reflexivity|]. split; [exists n, ""; split; [reflexivity | lia]|].
    constructor; [exists n; split; [lia | reflexivity] | constructor].
  - simpl. destruct (n <? 10) eqn:Hlt.
    + apply Z.ltb_lt in Hlt. simpl. rewrite digit_value_digit_char by lia.
      split; [reflexivity|]. split; [exists n, ""; split; [reflexivity | lia]|].
      constructor; [exists n; split; [lia | reflexivity] | constructor].
    + apply Z.ltb_ge in Hlt.
      assert (Hq : 0 <= n / 10 < 10 ^ (Z.of_nat f + 1)).
      { split; [apply Z.div_pos; lia|]. apply Z.div_lt_upper_bound; [lia|].
        rewrite Nat2Z.inj_succ in Hn.
        replace (Z.succ (Z.of_nat f) + 1) with (Z.succ (Z.of_nat f + 1)) in Hn by lia.
        rewrite Z.pow_succ_r in Hn by lia. lia. }
      destruct (IH (n / 10) Hq) as [Hp [[d [s' [Hs Hd]]] Hf]].
      pose proof (Z.mod_pos_bound n 10 ltac:(lia)) as Hm.
      split; [|split].
      * rewrite parse_digits_app, Hp. simpl. rewrite digit_value_digit_char by lia.
        f_equal. pose proof (Z.div_mod n 10 ltac:(lia)). lia.
      * rewrite Hs. exists d, (String.append s' (String (digit_char (n mod 10)) "")).
        split; [reflexivity | exact Hd].
      * rewrite wire_app. apply Forall_app. split; [exact Hf|].
        constructor; [exists (n mod 10); split; [lia | reflexivity] | constructor].
Qed.

Lemma itoa_nonneg_fuel (n : Z) :
  0 <= n -> 0 <= n < 10 ^ (Z.of_nat (Z.to_nat (Z.log2 n)) + 1).
Proof.
  intros Hn. split; [exact Hn|].
  rewrite Z2Nat.id by apply Z.log2_nonneg.
  destruct (Z.eq_dec n 0) as [->|Hne]; [simpl; lia|].
  destruct (Z.log2_spec n ltac:(lia)) as [_ Hup].
  eapply Z.lt_le_trans; [exact Hup|].
  rewrite <- Z.add_1_r. apply Z.pow_le_mono_l. lia.
Qed.

Lemma Itoa_nonneg_digits (n : Z) :
  0 <= n ->
  parse_digits (Itoa n) 0 = Some n /\
  (exists d s', Itoa n = String (digit_char d) s' /\ 0 <= d < 10) /\
  Forall is_digit_char (wire (Itoa n)).
Proof.
  intros Hn. unfold Itoa.
  replace (n <? 0) with false by (symmetry; apply Z.ltb_ge; lia).
  apply itoa_digits_spec, itoa_nonneg_fuel, Hn.
Qed.

Lemma Atoi_Itoa (n : Z) : 0 <= n < 2 ^ 63 -> Atoi (Itoa n) = Some n.
Proof.
  intros Hn. destruct (Itoa_nonneg_digits n ltac:(lia)) as [Hp [[d [s' [Hs Hd]]] _]].
  rewrite Hs in *. unfold Atoi.
  pose proof (digit_char_code d Hd) as Hc.
  destruct (ascii_dec (digit_char d) "-"%char) as [He|_].
  { rewrite He in Hc. change (nat_of_ascii "-"%char) with 45%nat in Hc. lia. }
  destruct (ascii_dec (digit_char d) "+"%char) as [He|_].
  { rewrite He in Hc. change (nat_of_ascii "+"%char) with 43%nat in Hc. lia. }
  unfold parse_unsigned. rewrite Hp.
  replace (n <? 2 ^ 63) with true by (symmetry; apply Z.ltb_lt; lia).
  reflexivity.
Qed.

(** Digits contain neither CR nor LF. *)
Lemma digits_no_crlf (t : bytes) : Forall is_digit_char t -> no_crlf t.
Proof.
  intros Hf l1 l2 ->. apply Forall_app in Hf as [_ Hf].
  inversion Hf as [|? ? [d [Hd Hc]] _]; subst.
  pose proof (digit_char_code d Hd) as Hcode. rewrite <- Hc in Hcode.
  change (nat_of_ascii CR) with 13%nat in Hcode. lia.
Qed.

End CodecProofs.

(* ------------------------------------------------------------------ *)
(** ** Decoding the encoders' bytes *)

Lemma wrap64_small (z : Z) : - 2 ^ 63 <= z < 2 ^ 63 -> wrap64 z = z.
Proof. intros Hz. unfold wrap64. rewrite Z.mod_small; lia. Qed.

Section DecodeReplies.
Local Open Scope list_scope.

Lemma wire_CRLF : wire CRLF = [CR; LF].
Proof. reflexivity. Qed.

Lemma decode_simple_string (f : nat) (s : string) (rest : bytes) :
  no_crlf (wire s) ->
  DecodeRESP_fuel (S f) (wire (returnSimpleString s) ++ rest)
    = DOk (VSimpleString (wire s)) rest.
Proof.
  intros Hno. unfold returnSimpleString. rewrite !wire_app, wire_CRLF.
  simpl. rewrite <- app_assoc. simpl.
  unfold decodeSimpleString. rewrite readUntilCRLF_line by exact Hno. reflexivity.
Qed.

Lemma decode_bulk_string (f : nat) (s : string) (rest : bytes) :
  Z.of_nat (String.length s) + 2 <= maxAlloc ->
  DecodeRESP_fuel (S f) (wire (returnBulkString s) ++ rest)
    = DOk (VBulkString (wire s)) rest.
Proof.
  intros Hlen. unfold maxAlloc in Hlen.
  set (L := Z.of_nat (String.length s)).
  unfold returnBulkString. fold L. rewrite !wire_app, wire_CRLF.
  simpl. rewrite <- !app_assoc. simpl.
  unfold decodeBulkString.
  destruct (Itoa_nonneg_digits L ltac:(lia)) as [_ [_ Hdig]].
  rewrite readUntilCRLF_line by (apply digits_no_crlf; exact Hdig).
  rewrite string_of_list_ascii_of_string, Atoi_Itoa by lia.
  rewrite wrap64_small by lia.
  replace ((L + 2 <? 0) || (maxAlloc <? L + 2)) with false
    by (unfold maxAlloc; symmetry; apply orb_false_iff; split; apply Z.ltb_ge; lia).
  rewrite <- app_assoc. simpl.
  assert (Hs1 : length (wire s ++ CR :: LF :: rest) = (String.length s + 2 + length rest)%nat)
    by (rewrite length_app, wire_length; simpl; lia).
  rewrite Hs1.
  replace (Z.of_nat (String.length s + 2 + length rest) <? L + 2) with false
    by (symmetry; apply Z.ltb_ge; lia).
  replace (L <? 0) with false by (symmetry; apply Z.ltb_ge; lia).
  assert (HL : Z.to_nat L = length (wire s)) by (rewrite wire_length; unfold L; lia).
  assert (HL2 : Z.to_nat (L + 2) = (length (wire s) + 2)%nat) by lia.
  rewrite HL, HL2, take_app_length.
  rewrite drop_app_ge by lia.
  replace (length (wire s) + 2 - length (wire s))%nat with 2%nat by lia.
  reflexivity.
Qed.

Lemma returnArray_elems_length (a : list string) :
  (length a <= length (wire (returnArray_elems a)))%nat.
Proof.
  induction a as [|v a IH]; simpl; [lia|].
  rewrite wire_app, length_app.
  destruct (String.eqb v ""); simpl; lia.
Qed.

Lemma decodeArray_loop_bulk (f : nat) (a : list string) :
  Forall (fun v => v <> "" /\ Z.of_nat (String.length v) + 2 <= maxAlloc) a ->
  forall g i count acc rest,
  (length a < g)%nat -> i + Z.of_nat (length a) = count + 1 ->
  decodeArray_loop (DecodeRESP_fuel (S f)) g i count
    (wire (returnArray_elems a) ++ rest) acc
  = DOk (acc ++ map (fun v => VBulkString (wire v)) a) rest.
Proof.
  induction a as [|v a IH]; intros Hall g i count acc rest Hg Hi.
  - simpl in Hi |- *. rewrite app_nil_r. destruct g as [|g]; [lia|]. simpl.
    replace (i <=? count) with false by (symmetry; apply Z.leb_gt; lia). reflexivity.
  - apply Forall_cons in Hall as [[Hne Hv] Hall].
    simpl length in Hg, Hi. destruct g as [|g]; [lia|].
    cbn [decodeArray_loop returnArray_elems]. replace (i <=? count) with true by (symmetry; apply Z.leb_le; lia).
    rewrite (proj2 (String.eqb_neq v "") Hne), wire_app, <- app_assoc.
    rewrite decode_bulk_string by exact Hv.
    rewrite IH; [| exact Hall | lia | lia].
    rewrite <- app_assoc. reflexivity.
Qed.

Lemma DecodeRESP_fuel_array (f : nat) (s : bytes) :
  DecodeRESP_fuel (S f) ("*"%char :: s) = decodeArray (DecodeRESP_fuel f) s.
Proof. reflexivity. Qed.

Lemma decode_array (f : nat) (a : list string) (rest : bytes) :
  Forall (fun v => v <> "" /\ Z.of_nat (String.length v) + 2 <= maxAlloc) a ->
  Z.of_nat (length a) < 2 ^ 63 ->
  DecodeRESP_fuel (S (S f)) (wire (returnArray a) ++ rest)
    = DOk (VArray (map (fun v => VBulkString (wire v)) a)) rest.
Proof.
  intros Hall Hlen. unfold returnArray. rewrite !wire_app, wire_CRLF.
  change (wire "*") with ["*"%char]. rewrite <- !app_assoc. cbn [app].
  rewrite DecodeRESP_fuel_array. unfold decodeArray.
  destruct (Itoa_nonneg_digits (Z.of_nat (length a)) ltac:(lia)) as [_ [_ Hdig]].
  rewrite readUntilCRLF_line by (apply digits_no_crlf; exact Hdig).
  rewrite string_of_list_ascii_of_string, Atoi_Itoa by lia.
  pose proof (returnArray_elems_length a) as Hel.
  rewrite decodeArray_loop_bulk; [reflexivity | exact Hall | |].
  - rewrite length_app. lia.
  - lia.
Qed.

(** There is no [':'] case: an Integer reply is an invalid type. *)
Lemma decode_integer (f : nat) (i : Z) (rest : bytes) :
  DecodeRESP_fuel (S f) (wire (returnInteger i) ++ rest) = DErr ErrInvalidType.
Proof. reflexivity. Qed.

Lemma no_crlf_minus_one : no_crlf ["-"%char; "1"%char].
Proof.
  intros l1 l2 H.
  destruct l1 as [|x [|y [|z l]]]; simpl in H; try discriminate;
    repeat (injection H as ? H); try discriminate; subst; discriminate.
Qed.

(** The null bulk string ["$-1\r\n"] reads the count -1: at end of stream
    [io.ReadFull] fails with [io.EOF]; with more bytes [readBytes[:-1]]
    panics. It never decodes to a value. *)
Lemma decode_null (f : nat) (rest : bytes) :
  DecodeRESP_fuel (S f) (wire returnNullBulkString ++ rest)
    = match rest with [] => DErr ErrEOF | _ :: _ => DPanic end.
Proof.
  change (wire returnNullBulkString ++ rest)
    with ("$"%char :: (["-"%char; "1"%char] ++ CR :: LF :: rest)).
  cbn [DecodeRESP_fuel]. unfold decodeBulkString.
  rewrite readUntilCRLF_line by exact no_crlf_minus_one.
  destruct rest as [|c rest]; [reflexivity|].
  assert (Hl : (Z.of_nat (length (c :: rest)) <? 1) = false)
    by (apply Z.ltb_ge; simpl length; lia).
  simpl. simpl in Hl.
  change (wrap64 (- (0 * 10 + Z.of_nat 1) + 2)) with 1. rewrite Hl. reflexivity.
Qed.

Lemma decode_null_not_ok (f : nat) (rest : bytes) (v : Value) (r : bytes) :
  DecodeRESP_fuel (S f) (wire returnNullBulkString ++ rest) <> DOk v r.
Proof. rewrite decode_null. destruct rest; discriminate. Qed.

(** An element given as [""] is written as the null bulk string, on
    which the element loop stops without a value. *)
Lemma decodeArray_loop_null (f : nat) (a : list string) :
  Forall (fun v => Z.of_nat (String.length v) + 2 <= maxAlloc) a ->
  In "" a ->
  forall g i count acc rest v r,
  (length a < g)%nat -> i + Z.of_nat (length a) = count + 1 ->
  decodeArray_loop (DecodeRESP_fuel (S f)) g i count
    (wire (returnArray_elems a) ++ rest) acc <> DOk v r.
Proof.
  induction a as [|w a IH]; intros Hall Hin g i count acc rest v r Hg Hi; [destruct Hin|].
  apply Forall_cons in Hall as [Hw Hall].
  simpl length in Hg, Hi. destruct g as [|g]; [lia|].
  cbn [decodeArray_loop returnArray_elems].
  replace (i <=? count) with true by (symmetry; apply Z.leb_le; lia).
  destruct (String.eqb_spec w "") as [->|Hne].
  - rewrite wire_app, <- app_assoc, decode_null.
    destruct (wire (returnArray_elems a) ++ rest); discriminate.
  - destruct Hin as [Hx|Hin]; [congruence|].
    rewrite wire_app, <- app_assoc, decode_bulk_string by exact Hw.
    apply IH; [exact Hall | exact Hin | lia | lia].
Qed.

Lemma decode_array_null (f : nat) (a : list string) (rest : bytes) (v : Value) (r : bytes) :
  Forall (fun v => Z.of_nat (String.length v) + 2 <= maxAlloc) a ->
  In "" a -> Z.of_nat (length a) < 2 ^ 63 ->
  DecodeRESP_fuel (S (S f)) (wire (returnArray a) ++ rest) <> DOk v r.
Proof.
  intros Hall Hin Hlen. unfold returnArray. rewrite !wire_app, wire_CRLF.
  change (wire "*") with ["*"%char]. rewrite <- !app_assoc. cbn [app].
  rewrite DecodeRESP_fuel_array. unfold decodeArray.
  destruct (Itoa_nonneg_digits (Z.of_nat (length a)) ltac:(lia)) as [_ [_ Hdig]].
  rewrite readUntilCRLF_line by (apply digits_no_crlf; exact Hdig).
  rewrite string_of_list_ascii_of_string, Atoi_Itoa by lia.
  pose proof (returnArray_elems_length a) as Hel.
  destruct (decodeArray_loop _ _ _ _ _ _) as [arr r'| e |] eqn:E; try discriminate.
  exfalso. revert E. apply (decodeArray_loop_null f a Hall Hin); [|lia].
  rewrite length_app. lia.
Qed.

End DecodeReplies.

(** C1 (counterexample): the decoder has no case for the [':'] marker, so
    an Integer reply does not decode; the null bulk string and an array
    holding the empty string (encoded as null) fail with [io.EOF] at end
    of stream, and panic at [readBytes[:-1]] when more bytes follow. *)
Lemma reply_roundtrip_fails_integer_and_null :
  DecodeRESP (wire (returnInteger 0)) = DErr ErrInvalidType /\
  DecodeRESP (wire returnNullBulkString) = DErr ErrEOF /\
  DecodeRESP (wire (returnArray ["a"; ""])) = DErr ErrEOF /\
  DecodeRESP (app (wire (returnArray ["a"; ""])) (wire (returnSimpleString "OK")))
    = DPanic.
Proof. repeat split; vm_compute; reflexivity. Qed.

(** C1 (as the code has it): the decoder reads back, consuming exactly the
    encoder's bytes, a Status whose text has no CR LF pair, a BulkString
    (empty included) of length up to [maxAlloc - 2], and an Array of
    non-empty such bulk strings. It reads back no Integer reply (there is
    no [':'] case), no Null BulkString ([io.EOF] at end of stream), and no
    Array with an element given as [""] (which is written as Null). *)
Theorem reply_roundtrip_status_bulk_array :
  (forall (s : string) (rest : bytes), no_crlf (wire s) ->
     DecodeRESP (app (wire (returnSimpleString s)) rest)
       = DOk (VSimpleString (wire s)) rest) /\
  (forall (s : string) (rest : bytes), Z.of_nat (String.length s) + 2 <= maxAlloc ->
     DecodeRESP (app (wire (returnBulkString s)) rest)
       = DOk (VBulkString (wire s)) rest) /\
  (forall (a : list string) (rest : bytes),
     Forall (fun v => v <> "" /\ Z.of_nat (String.length v) + 2 <= maxAlloc) a ->
     Z.of_nat (length a) < 2 ^ 63 ->
     DecodeRESP (app (wire (returnArray a)) rest)
       = DOk (VArray (map (fun v => VBulkString (wire v)) a)) rest) /\
  (forall (i : Z) (rest : bytes),
     DecodeRESP (app (wire (returnInteger i)) rest) = DErr ErrInvalidType) /\
  DecodeRESP (wire returnNullBulkString) = DErr ErrEOF /\
  (forall (rest : bytes) (v : Value) (r : bytes),
     DecodeRESP (app (wire returnNullBulkString) rest) <> DOk v r) /\
  (forall (a : list string) (rest : bytes) (v : Value) (r : bytes),
     Forall (fun v => Z.of_nat (String.length v) + 2 <= maxAlloc) a ->
     In "" a -> Z.of_nat (length a) < 2 ^ 63 ->
     DecodeRESP (app (wire (returnArray a)) rest) <> DOk v r).
Proof.
  split; [|split; [|split; [|split; [|split; [|split]]]]].
  - intros s rest Hno. apply decode_simple_string. exact Hno.
  - intros s rest Hlen. apply decode_bulk_string. exact Hlen.
  - intros a rest Hall Hlen. unfold DecodeRESP.
    destruct (length (app (wire (returnArray a)) rest)) as [|n] eqn:E.
    + exfalso. unfold returnArray in E. simpl in E. discriminate E.
    + apply decode_array; assumption.
  - intros i rest. apply decode_integer.
  - reflexivity.
  - intros rest v r. apply decode_null_not_ok.
  - intros a rest v r Hall Hin Hlen. unfold DecodeRESP.
    destruct (length (app (wire (returnArray a)) rest)) as [|n] eqn:E.
    + exfalso. unfold returnArray in E. simpl in E. discriminate E.
    + apply decode_array_null; assumption.
Qed.

(* ================================================================== *)
(** * Properties of the rest of the code *)

(* ------------------------------------------------------------------ *)
(** ** Counters: INCR, INCRBY, DECR, DECRBY *)

(** [strconv.Atoi] reads back every [int] that [strconv.Itoa] writes. *)
Lemma Atoi_Itoa_int (n : Z) : int_min <= n <= int_max -> Atoi (Itoa n) = Some n.
Proof.
  unfold int_min, int_max. intros Hn.
  destruct (Z.ltb_spec n 0) as [Hneg|Hpos].
  - destruct (Itoa_nonneg_digits (- n) ltac:(lia)) as [Hp [[d [s' [Hs Hd]]] _]].
    unfold Itoa in Hp, Hs. replace (- n <? 0) with false in Hp, Hs
      by (symmetry; apply Z.ltb_ge; lia).
    assert (Hi : Itoa n = String "-" (String (digit_char d) s')).
    { unfold Itoa. replace (n <? 0) with true by (symmetry; apply Z.ltb_lt; lia).
      rewrite Hs. reflexivity. }
    rewrite Hi. unfold Atoi. destruct (ascii_dec "-" "-") as [_|C]; [|congruence].
    unfold parse_unsigned. rewrite Hs in Hp. rewrite Hp.
    replace (- n <=? 2 ^ 63) with true by (symmetry; apply Z.leb_le; lia).
    f_equal. lia.
  - apply Atoi_Itoa. lia.
Qed.

Lemma Itoa_nonempty (n : Z) : Itoa n <> "".
Proof.
  unfold Itoa. destruct (n <? 0); [discriminate|].
  unfold itoa_nonneg. destruct (Z.to_nat (Z.log2 n)); simpl; [discriminate|].
  destruct (n <? 10); [discriminate|].
  destruct (itoa_digits n0 (n / 10)); discriminate.
Qed.

Lemma wrap64_range (z : Z) : int_min <= wrap64 z <= int_max.
Proof.
  unfold wrap64, int_min, int_max.
  pose proof (Z.mod_pos_bound (z + 2 ^ 63) (2 ^ 64) ltac:(lia)). lia.
Qed.

Lemma wrap64_sub (a d : Z) : wrap64 (a - d) = wrap64 (a + wrap64 (- d)).
Proof.
  unfold wrap64.
  replace (a + ((- d + 2 ^ 63) mod 2 ^ 64 - 2 ^ 63) + 2 ^ 63)
    with (a + (- d + 2 ^ 63) mod 2 ^ 64) by ring.
  rewrite Z.add_mod_idemp_r by lia. f_equal. f_equal. ring.
Qed.

(** [Incr], [Decr] and [DecrBy] are [IncrBy] with the increments 1, -1
    and [-decrement] (negated in 64 bits): same result, same new state. *)
Theorem Incr_Decr_DecrBy_are_IncrBy (now : Z) (key : string) (decrement : Z)
    (db : Database) :
  Incr now key db = IncrBy now key 1 db /\
  Decr now key db = IncrBy now key (-1) db /\
  DecrBy now key decrement db = IncrBy now key (wrap64 (- decrement)) db.
Proof.
  unfold Incr, Decr, DecrBy, IncrBy.
  destruct (Get now key db) as [storage db1].
  destruct (String.eqb storage ""); [split; [|split]; reflexivity|].
  destruct (checkAndRemoveExpiredKey now key db1) as [[|] db2];
    [split; [|split]; reflexivity|].
  destruct (Atoi storage) as [value|]; [|split; [|split]; reflexivity].
  split; [reflexivity|]. split.
  - replace (value - 1) with (value + -1) by ring. reflexivity.
  - rewrite wrap64_sub. reflexivity.
Qed.

(** A key is a 64-bit counter under [IncrBy]: an absent key starts at the
    increment, and a live key holding [Itoa n] moves to [n + increment]
    wrapped to 64 bits; the new value is stored as its decimal text and
    the expiry is kept. *)
Theorem IncrBy_counter (now n increment : Z) (key : string) (db : Database) :
  (StringKeys db !! key = None ->
     IncrBy now key increment db = (increment, Set_ key (Itoa increment) db)) /\
  (int_min <= n <= int_max -> StringKeys db !! key = Some (Itoa n) ->
   (forall e, ExpireKeys db !! key = Some e -> now <= e) ->
     IncrBy now key increment db =
       (wrap64 (n + increment), Set_ key (Itoa (wrap64 (n + increment))) db)).
Proof.
  split.
  - intros H. unfold IncrBy. rewrite Get_absent by exact H. reflexivity.
  - intros Hn H He. unfold IncrBy. rewrite (Get_live now key (Itoa n)) by assumption.
    rewrite (proj2 (String.eqb_neq _ _) (Itoa_nonempty n)).
    rewrite checkAndRemoveExpiredKey_live by exact He.
    rewrite Atoi_Itoa_int by exact Hn. reflexivity.
Qed.

(* ------------------------------------------------------------------ *)
(** ** The expire checker: [checkAndRemoveExpiredKeys] *)

Lemma lookup_filter_expired {A} (now : Z) (db : Database) (m : gmap string A)
    (k : string) :
  filter (fun kv => expired now db kv.1 = false) m !! k =
    if expired now db k then None else m !! k.
Proof.
  rewrite map_lookup_filter. destruct (m !! k) as [x|]; simpl;
    destruct (expired now db k) eqn:E; simpl; try reflexivity;
    case_guard; simpl in *; congruence.
Qed.

Lemma Get_fst_expired (now : Z) (k : string) (db : Database) :
  expired now db k = true -> fst (Get now k db) = "".
Proof.
  unfold expired. intros H.
  destruct (ExpireKeys db !! k) as [e|] eqn:He; [|discriminate].
  apply Z.gtb_lt in H.
  destruct (StringKeys db !! k) as [v|] eqn:Hv.
  - rewrite (Get_expired now k v e db) by (auto; lia). reflexivity.
  - rewrite Get_absent by exact Hv. reflexivity.
Qed.

(** The periodic sweep removes exactly the keys whose expiry instant has
    passed, from both maps, leaves no passed expiry behind, and changes no
    answer of [Get]: it only does eagerly what [Get] does lazily. *)
Theorem checkAndRemoveExpiredKeys_spec (now : Z) (db : Database) (k : string) :
  let db' := checkAndRemoveExpiredKeys now db in
  db_id db' = db_id db /\
  StringKeys db' !! k = (if expired now db k then None else StringKeys db !! k) /\
  ExpireKeys db' !! k = (if expired now db k then None else ExpireKeys db !! k) /\
  (forall e, ExpireKeys db' !! k = Some e -> now <= e) /\
  fst (Get now k db') = fst (Get now k db).
Proof.
  intros db'. unfold db', checkAndRemoveExpiredKeys. simpl.
  rewrite !lookup_filter_expired.
  split; [reflexivity|]. split; [reflexivity|]. split; [reflexivity|].
  destruct (expired now db k) eqn:E.
  - split; [intros e He; discriminate He|].
    rewrite Get_absent by (simpl; rewrite lookup_filter_expired, E; reflexivity).
    symmetry. apply Get_fst_expired. exact E.
  - split.
    + intros e He. unfold expired in E. rewrite He in E.
      rewrite Z.gtb_ltb in E. apply Z.ltb_ge in E. exact E.
    + apply Get_fst_local; simpl; rewrite lookup_filter_expired, E; reflexivity.
Qed.

(* ------------------------------------------------------------------ *)
(** ** GETSET, GETDEL and what DEL leaves behind *)

Section GetRest.
Variable now : Z.

Lemma Get_nonempty (key s : string) (db db1 : Database) :
  Get now key db = (s, db1) -> s <> "" ->
  db1 = db /\ StringKeys db !! key = Some s /\
  checkAndRemoveExpiredKey now key db = (false, db).
Proof.
  unfold Get. destruct (StringKeys db !! key) as [v|] eqn:Hv.
  - unfold checkAndRemoveExpiredKey.
    destruct (ExpireKeys db !! key) as [e|] eqn:He.
    + destruct (now >? e) eqn:G; intros H Hs; injection H as <- <-;
        [congruence | auto].
    + intros H Hs. injection H as <- <-. auto.
  - intros H Hs. injection H as <- <-. congruence.
Qed.

(** Reading a key twice gives the same answer. *)
Lemma Get_fst_idem (key : string) (db : Database) :
  fst (Get now key (snd (Get now key db))) = fst (Get now key db).
Proof.
  unfold Get at 2 3. destruct (StringKeys db !! key) as [v|] eqn:Hv; [|simpl; unfold Get; rewrite Hv; reflexivity].
  unfold checkAndRemoveExpiredKey at 1 2.
  destruct (ExpireKeys db !! key) as [e|] eqn:He.
  - destruct (now >? e) eqn:G; simpl.
    + rewrite Get_absent by apply lookup_delete_eq. reflexivity.
    + unfold Get. rewrite Hv. unfold checkAndRemoveExpiredKey. rewrite He, G. reflexivity.
  - simpl. unfold Get. rewrite Hv. unfold checkAndRemoveExpiredKey. rewrite He. reflexivity.
Qed.

End GetRest.

(** GETSET is a read followed by [Set]: it returns what [Get] returns
    (the empty string for a missing, expired or empty key) and stores the
    new value over the state [Get] leaves; its second expiry check can
    never fire, and the key's pending expiry is kept. *)
Theorem GetSet_is_Get_then_Set (now : Z) (key value : string) (db : Database) :
  GetSet now key value db = (fst (Get now key db), Set_ key value (snd (Get now key db))).
Proof.
  unfold GetSet. destruct (Get now key db) as [storage db1] eqn:EG. simpl.
  destruct (String.eqb_spec storage "") as [->|Hne]; [reflexivity|].
  destruct (Get_nonempty now key storage db db1 EG Hne) as [-> [_ Hc]].
  rewrite Hc. reflexivity.
Qed.

(** GETDEL returns what [Get] returns; afterwards the key reads as absent
    and no other key changes. Only [StringKeys] loses the key: its expiry
    entry stays as [Get] left it. *)
Theorem GetDel_spec (now : Z) (key : string) (db : Database) :
  let '(v, db') := GetDel now key db in
  v = fst (Get now key db) /\
  fst (Get now key db') = "" /\
  ExpireKeys db' = ExpireKeys (snd (Get now key db)) /\
  (forall k, k <> key ->
     StringKeys db' !! k = StringKeys db !! k /\ ExpireKeys db' !! k = ExpireKeys db !! k).
Proof.
  pose proof (Get_purges_only now key db) as [_ Hp].
  pose proof (Get_fst_idem now key db) as Hi.
  unfold GetDel. destruct (Get now key db) as [storage db1] eqn:EG. simpl in *.
  destruct (String.eqb_spec storage "") as [->|Hne].
  - split; [reflexivity|]. split; [exact Hi|]. split; [reflexivity|].
    intros k Hk. destruct (Hp k) as [Hl | [Hin _]]; [exact Hl|].
    apply list_elem_of_singleton in Hin. contradiction.
  - destruct (Get_nonempty now key storage db db1 EG Hne) as [-> [Hs Hc]].
    unfold Del. simpl. rewrite EG. rewrite (proj2 (String.eqb_neq _ _) Hne). simpl.
    split; [reflexivity|]. split.
    + rewrite Get_absent by apply lookup_delete_eq. reflexivity.
    + split; [reflexivity|]. intros k Hk. simpl. split; [|reflexivity].
      apply lookup_delete_ne. congruence.
Qed.

(** DEL removes a live key from [StringKeys] only: its expiry instant
    stays in [ExpireKeys], so a later SET of the same key (which does not
    touch expiries) gives the new value that old expiry: TTL counts down
    to it, and the new value is gone once it has passed. *)
Theorem Del_keeps_expiry_for_next_Set (now now' e : Z) (key v w : string) (db : Database) :
  StringKeys db !! key = Some v -> v <> "" -> ExpireKeys db !! key = Some e -> now <= e ->
  let db' := Set_ key w (snd (Del now [key] db)) in
  fst (Del now [key] db) = 1 /\
  ExpireKeys db' !! key = Some e /\
  (w <> "" -> now' <= e -> forall t,
     fst (TTL now' t key db') = int_of_float64 (Duration_Seconds (time_Until t e)) /\
     (- (2 ^ 24 * Second) < e - t < 2 ^ 24 * Second ->
        fst (TTL now' t key db') = Z.quot (e - t) Second)) /\
  (now' > e -> fst (Get now' key db') = "").
Proof.
  intros Hv Hne He Hle db'.
  assert (HD : Del now [key] db = (1, set_StringKeys (delete key (StringKeys db)) db)).
  { unfold Del. simpl. rewrite (Get_live now key v) by (auto; intros e' He'; congruence).
    rewrite (proj2 (String.eqb_neq _ _) Hne). reflexivity. }
  assert (Hs : StringKeys db' !! key = Some w).
  { unfold db'. rewrite HD. apply lookup_insert_eq. }
  assert (He' : ExpireKeys db' !! key = Some e).
  { unfold db'. rewrite HD. exact He. }
  rewrite HD. split; [reflexivity|]. split; [exact He'|]. split.
  - intros Hw Hle' t. split.
    + rewrite (TTL_live_expiry now' t key w e db' Hs Hw He' Hle'). reflexivity.
    + apply (TTL_live_quot now' t key w e db' Hs Hw He' Hle').
  - intros Hgt. rewrite (Get_expired now' key w e db') by auto. reflexivity.
Qed.

Definition db_with_expiry : Database := mkDatabase 0 {[ "k" := "v" ]} {[ "k" := 10 ]}.

Lemma Del_keeps_expiry_for_next_Set_witness :
  StringKeys db_with_expiry !! "k" = Some "v" /\ ExpireKeys db_with_expiry !! "k" = Some 10 /\
  let db' := Set_ "k" "w" (snd (Del 0 ["k"] db_with_expiry)) in
  fst (Del 0 ["k"] db_with_expiry) = 1 /\
  ExpireKeys db' !! "k" = Some 10 /\
  ("w" <> "" -> 5 <= 10 -> forall t,
     fst (TTL 5 t "k" db') = int_of_float64 (Duration_Seconds (time_Until t 10)) /\
     (- (2 ^ 24 * Second) < 10 - t < 2 ^ 24 * Second ->
        fst (TTL 5 t "k" db') = Z.quot (10 - t) Second)) /\
  (5 > 10 -> fst (Get 5 "k" db') = "").
Proof.
  split; [reflexivity|]. split; [reflexivity|].
  apply (Del_keeps_expiry_for_next_Set 0 5 10 "k" "v" "w" db_with_expiry);
    [reflexivity | discriminate | reflexivity | lia].
Defined.

(* ------------------------------------------------------------------ *)
(** ** Reading several keys: MGET, EXISTS and DEL *)

Section MultiKey.
Variable now : Z.

Lemma Get_fst_purges_only (ks : list string) (db db' : Database) (k : string) :
  purges_only now ks db db' -> fst (Get now k db') = fst (Get now k db).
Proof.
  intros [_ H].
  destruct (H k) as [[Hs He] | [_ [e [He [Hn [Hs He']]]]]].
  - apply Get_fst_local; auto.
  - rewrite Get_absent by exact Hs.
    destruct (StringKeys db !! k) as [v|] eqn:Hv.
    + rewrite (Get_expired now k v e db); auto.
    + rewrite Get_absent by exact Hv. reflexivity.
Qed.

Lemma MGet_spec (args : list string) (db : Database) :
  fst (MGet now args db) = map (fun k => fst (Get now k db)) args /\
  purges_only now args db (snd (MGet now args db)).
Proof.
  revert db. induction args as [|k ks IH]; intros db.
  - split; [reflexivity | apply purges_only_refl].
  - simpl. pose proof (Get_purges_only now k db) as Hp.
    assert (Hk : fst (Get now k db) = fst (Get now k db)) by reflexivity.
    destruct (Get now k db) as [v db1] eqn:EG.
    destruct (IH db1) as [Hf Hq].
    destruct (MGet now ks db1) as [values db2]. simpl in *. split.
    + f_equal. rewrite Hf. apply map_ext. intros k'.
      apply (Get_fst_purges_only [k]). exact Hp.
    + apply purges_only_trans with db1.
      * apply purges_only_mono with [k]; [set_solver | exact Hp].
      * apply purges_only_mono with ks; [set_solver | exact Hq].
Qed.

Lemma Exists_loop_count (keys : list string) (n : Z) (db : Database) :
  fst (Exists_loop now keys n db) =
    n + Z.of_nat (length (filter (fun k => present now k db = true) keys)).
Proof.
  revert n db. induction keys as [|k ks IH]; intros n db; [simpl; lia|].
  simpl. pose proof (Get_purges_only now k db) as Hp.
  assert (Hpr : present now k db = negb (String.eqb (fst (Get now k db)) "")) by reflexivity.
  destruct (Get now k db) as [s db1]. simpl in Hp, Hpr.
  destruct (String.eqb s "") eqn:Hs; rewrite IH;
  rewrite (list_filter_iff (fun k' => present now k' db1 = true)
                           (fun k' => present now k' db = true))
    by (intros k'; rewrite (present_purges_only now [k] db db1 k' Hp); reflexivity).
  - rewrite filter_cons_False by (rewrite Hpr; discriminate). reflexivity.
  - rewrite filter_cons_True by (rewrite Hpr; reflexivity). simpl. lia.
Qed.

Lemma present_after_delete (k k' : string) (db : Database) :
  present now k' (set_StringKeys (delete k (StringKeys db)) db) =
    if String.eqb k' k then false else present now k' db.
Proof.
  unfold present. destruct (String.eqb_spec k' k) as [->|Hne].
  - rewrite Get_absent by apply lookup_delete_eq. reflexivity.
  - rewrite (Get_fst_local now k' db); [reflexivity| |reflexivity].
    apply lookup_delete_ne. congruence.
Qed.

Lemma Del_loop_spec (keys : list string) (n : Z) (db : Database) :
  let '(count, db') := Del_loop now keys n db in
  count = n + Z.of_nat (size (list_to_set (filter (fun k => present now k db = true) keys)
                               : gset string)) /\
  (forall k, k ∈ keys -> present now k db' = false) /\
  db_id db' = db_id db /\
  (forall k, k ∉ keys -> StringKeys db' !! k = StringKeys db !! k /\
                         ExpireKeys db' !! k = ExpireKeys db !! k).
Proof.
  revert n db. induction keys as [|k ks IH]; intros n db.
  - cbn [Del_loop]. rewrite filter_nil, list_to_set_nil, size_empty.
    split; [lia|]. split; [intros k Hk; set_solver|]. auto.
  - cbn [Del_loop]. pose proof (Get_purges_only now k db) as Hp.
    pose proof (Get_fst_idem now k db) as Hi.
    assert (Hpr : present now k db = negb (String.eqb (fst (Get now k db)) "")) by reflexivity.
    destruct (Get now k db) as [s db1] eqn:EG. simpl in Hp, Hpr, Hi.
    destruct (String.eqb_spec s "") as [->|Hne].
    + specialize (IH n db1). destruct (Del_loop now ks n db1) as [count db'].
      destruct IH as [Hc [Ha [Hid Hf]]].
      rewrite filter_cons_False by (rewrite Hpr; discriminate).
      rewrite (list_filter_iff (fun k' => present now k' db = true)
                               (fun k' => present now k' db1 = true))
        by (intros k'; rewrite (present_purges_only now [k] db db1 k' Hp); reflexivity).
      split; [exact Hc|]. split; [|split].
      * intros k' Hk'. apply elem_of_cons in Hk' as [->|Hk'].
        -- destruct (decide (k ∈ ks)) as [Hin|Hnin]; [apply Ha, Hin|].
           destruct (Hf k Hnin) as [Hs' He'].
           unfold present. rewrite (Get_fst_local now k db1 db'), Hi by assumption.
           reflexivity.
        -- apply Ha, Hk'.
      * destruct Hp as [Hid1 _]. congruence.
      * intros k' Hk'. destruct (Hf k' ltac:(set_solver)) as [Hs' He'].
        destruct Hp as [_ Hp]. destruct (Hp k') as [[Hs1 He1] | [Hin _]].
        -- split; congruence.
        -- apply list_elem_of_singleton in Hin. set_solver.
    + destruct (Get_nonempty now k s db db1 EG Hne) as [-> [Hs _]].
      set (db2 := set_StringKeys (delete k (StringKeys db)) db).
      specialize (IH (n + 1) db2). destruct (Del_loop now ks (n + 1) db2) as [count db'].
      destruct IH as [Hc [Ha [Hid Hf]]].
      rewrite filter_cons_True by (rewrite Hpr; simpl; destruct (String.eqb_spec s ""); congruence).
      assert (Hset : (list_to_set (filter (fun k' => present now k' db2 = true) ks) : gset string)
                     = list_to_set (filter (fun k' => present now k' db = true) ks) ∖ {[k]}).
      { apply set_eq. intros x. rewrite elem_of_difference, !elem_of_list_to_set,
          !list_elem_of_filter, elem_of_singleton.
        unfold db2. rewrite present_after_delete.
        destruct (String.eqb_spec x k); intuition congruence. }
      split.
      * assert (Hsz : forall X : gset string, size ({[k]} ∪ X) = S (size (X ∖ {[k]})))
          by (intros X; rewrite size_union_alt, size_singleton; reflexivity).
        rewrite Hc, Hset, list_to_set_cons, Hsz. lia.
      * split; [|split].
        -- intros k' Hk'. apply elem_of_cons in Hk' as [->|Hk'].
           ++ destruct (decide (k ∈ ks)) as [Hin|Hnin]; [apply Ha, Hin|].
              destruct (Hf k Hnin) as [Hs' He'].
              unfold present. rewrite (Get_fst_local now k db2 db') by assumption.
              rewrite Get_absent by apply lookup_delete_eq. reflexivity.
           ++ apply Ha, Hk'.
        -- exact Hid.
        -- intros k' Hk'. destruct (Hf k' ltac:(set_solver)) as [Hs' He'].
           rewrite Hs', He'. unfold db2. simpl. split; [|reflexivity].
           apply lookup_delete_ne. set_solver.
Qed.

End MultiKey.

(** MGET returns, in order, what [Get] returns for each listed key on the
    state before the command (the lazy purges of earlier keys change no
    later answer); a missing, expired or empty key is a Null element of
    the reply array. *)
Theorem MGet_values (now : Z) (args : list string) (db : Database) :
  fst (MGet now args db) = map (fun k => fst (Get now k db)) args /\
  (forall srv, args <> [] -> databases srv !! selectedDB srv = Some db ->
     exists srv', mgetCommand now args srv =
       CReply (returnArray (map (fun k => fst (Get now k db)) args)) srv').
Proof.
  destruct (MGet_spec now args db) as [Hf _]. split; [exact Hf|].
  intros srv Hne Hsel. unfold mgetCommand.
  replace (checkNumberOfArguments args 1) with true
    by (destruct args; [congruence | reflexivity]).
  simpl. unfold on_selected. rewrite Hsel.
  destruct (MGet now args db) as [values db']. simpl in Hf. subst values.
  eexists. reflexivity.
Qed.

(** EXISTS counts the listed keys that hold a live non-empty value, with
    repetitions: a key listed twice is counted twice. *)
Theorem Exists_counts_present (now : Z) (keys : list string) (db : Database) :
  fst (Exists now keys db) =
    Z.of_nat (length (filter (fun k => present now k db = true) keys)).
Proof. unfold Exists. rewrite Exists_loop_count. lia. Qed.

(** DEL returns the number of distinct listed keys that held a live
    non-empty value (a key listed twice is deleted and counted once);
    afterwards every listed key reads as absent, and the keys not listed
    keep their entries in both maps. *)
Theorem Del_counts_distinct_present (now : Z) (keys : list string) (db : Database) :
  let '(count, db') := Del now keys db in
  count = Z.of_nat (size (list_to_set (filter (fun k => present now k db = true) keys)
                          : gset string)) /\
  (forall k, k ∈ keys -> fst (Get now k db') = "") /\
  (forall k, k ∉ keys -> StringKeys db' !! k = StringKeys db !! k /\
                         ExpireKeys db' !! k = ExpireKeys db !! k).
Proof.
  unfold Del. pose proof (Del_loop_spec now keys 0 db) as H.
  destruct (Del_loop now keys 0 db) as [count db'].
  destruct H as [Hc [Ha [_ Hf]]]. split; [lia|]. split; [|exact Hf].
  intros k Hk. specialize (Ha k Hk). unfold present in Ha.
  destruct (String.eqb_spec (fst (Get now k db')) ""); [assumption | discriminate].
Qed.

(* ------------------------------------------------------------------ *)
(** ** Expiries: EXPIRE, PERSIST, SETEX and the options of SET *)

Lemma wrap64_id (z : Z) : int_min <= z <= int_max -> wrap64 z = z.
Proof. unfold int_min, int_max. intros H. apply wrap64_small. lia. Qed.

(** EXPIRE on a key that reads as absent answers false and sets nothing;
    on a present key it answers true and sets the expiry [seconds] after
    its own reading [now_add] of the clock. A later TTL, whose [Get] reads
    the clock at [t1] and whose [time.Until] reads it at [t2 >= t1], counts
    the whole seconds from [t2] to that instant: [seconds - 1] when read
    less than a second after [now_add]. Once the instant has passed (at
    once for a count of 0 or less) the key reads as absent and TTL is -2. *)
Theorem Expire_then_TTL (now now_add seconds : Z) (key : string) (db : Database) :
  (fst (Get now key db) = "" -> Expire now now_add key seconds db = (false, snd (Get now key db))) /\
  (fst (Get now key db) <> "" -> - 9223372036 <= seconds <= 9223372036 ->
     let '(b, db') := Expire now now_add key seconds db in
     b = true /\ ExpireKeys db' !! key = Some (now_add + Second * seconds) /\
     (forall t1 t2, t1 <= t2 -> 0 <= now_add + Second * seconds - t2 < 2 ^ 24 * Second ->
        fst (TTL t1 t2 key db') = Z.quot (now_add + Second * seconds - t2) Second) /\
     (forall t1 t2, t1 <= t2 -> now_add < t2 <= now_add + Second -> 1 <= seconds <= 2 ^ 24 ->
        fst (TTL t1 t2 key db') = seconds - 1) /\
     (forall t1 t2, now_add + Second * seconds < t1 ->
        fst (Get t1 key db') = "" /\ fst (TTL t1 t2 key db') = -2)).
Proof.
  split.
  - intros H. unfold Expire. destruct (Get now key db) as [s db1]. simpl in H. subst s.
    reflexivity.
  - intros H Hs. unfold Expire. destruct (Get now key db) as [s db1] eqn:EG. simpl in H.
    destruct (Get_nonempty now key s db db1 EG H) as [-> [Hv _]].
    rewrite (proj2 (String.eqb_neq _ _) H).
    rewrite (wrap64_id (Second * seconds)) by (unfold int_min, int_max, Second; lia).
    set (e := now_add + Second * seconds).
    set (db' := set_ExpireKeys (<[key := e]> (ExpireKeys db)) db).
    assert (He : ExpireKeys db' !! key = Some e) by apply lookup_insert_eq.
    assert (Hv' : StringKeys db' !! key = Some s) by exact Hv.
    assert (Hq : forall t1 t2, t1 <= t2 -> 0 <= e - t2 < 2 ^ 24 * Second ->
                 fst (TTL t1 t2 key db') = Z.quot (e - t2) Second).
    { intros t1 t2 H12 Hr. apply (TTL_live_quot t1 t2 key s e db' Hv' H He); lia. }
    split; [reflexivity|]. split; [exact He|]. split; [exact Hq|]. split.
    + intros t1 t2 H12 Ht Hsec. unfold e.
      rewrite (Hq t1 t2 H12) by (unfold e, Second in *; lia).
      apply quot_seconds_minus_one; lia.
    + intros t1 t2 Hgt.
      pose proof (Get_expired t1 key s e db' Hv' He ltac:(lia)) as HG.
      split.
      * rewrite HG. reflexivity.
      * unfold TTL. rewrite HG. reflexivity.
Qed.

(** PERSIST on a present key: without an expiry it answers false and
    changes nothing; with a pending expiry it answers true and removes it,
    after which TTL is -1 and the value stays readable at any later time. *)
Theorem Persist_spec (now now' : Z) (key v : string) (db : Database) :
  StringKeys db !! key = Some v -> v <> "" ->
  (ExpireKeys db !! key = None -> Persist now key db = (false, db)) /\
  (forall e, ExpireKeys db !! key = Some e -> now <= e ->
     let '(b, db') := Persist now key db in
     b = true /\ ExpireKeys db' !! key = None /\
     (forall t, fst (TTL now' t key db') = -1) /\ fst (Get now' key db') = v).
Proof.
  intros Hv Hne. split.
  - intros He. unfold Persist.
    rewrite (Get_live now key v) by (auto; intros e Hx; congruence).
    rewrite (proj2 (String.eqb_neq _ _) Hne). unfold GetExpire. rewrite He. reflexivity.
  - intros e He Hle. unfold Persist.
    rewrite (Get_live now key v) by (auto; intros e' Hx; congruence).
    rewrite (proj2 (String.eqb_neq _ _) Hne). unfold GetExpire. rewrite He.
    set (db' := set_ExpireKeys (delete key (ExpireKeys db)) db).
    assert (He' : ExpireKeys db' !! key = None) by apply lookup_delete_eq.
    assert (HG : Get now' key db' = (v, db'))
      by (apply Get_live; [exact Hv | intros e' Hx; congruence]).
    split; [reflexivity|]. split; [exact He'|]. split.
    + intros t. unfold TTL. rewrite HG, (proj2 (String.eqb_neq _ _) Hne). unfold GetExpire.
      rewrite He'. reflexivity.
    + rewrite HG. reflexivity.
Qed.

Definition db_persist : Database := mkDatabase 0 {[ "k" := "v" ]} {[ "k" := 10 ]}.

Lemma Persist_spec_witness :
  StringKeys db_persist !! "k" = Some "v" /\
  ((ExpireKeys db_persist !! "k" = None -> Persist 0 "k" db_persist = (false, db_persist)) /\
   (forall e, ExpireKeys db_persist !! "k" = Some e -> 0 <= e ->
      let '(b, db') := Persist 0 "k" db_persist in
      b = true /\ ExpireKeys db' !! "k" = None /\
      (forall t, fst (TTL 100 t "k" db') = -1) /\ fst (Get 100 "k" db') = "v")).
Proof.
  split; [reflexivity|].
  apply (Persist_spec 0 100 "k" "v" db_persist); [reflexivity | discriminate].
Defined.

Lemma lookup_set_databases_selected (srv : RedisServer) (db db' : Database) :
  databases srv !! selectedDB srv = Some db ->
  databases (set_databases (<[selectedDB srv := db']> (databases srv)) srv)
    !! selectedDB (set_databases (<[selectedDB srv := db']> (databases srv)) srv) = Some db'.
Proof.
  intros H. simpl. apply list_lookup_insert_eq. apply lookup_lt_Some in H. exact H.
Qed.

(** SETEX with a count [s] of seconds in range stores the value with an
    expiry [s] seconds after its reading [now] of the clock: GET returns
    the value up to that instant and Null after it (at once for a count of
    0), and a TTL whose [time.Until] reads the clock less than a second
    after [now] answers [s - 1]. *)
Theorem setex_then_get_and_ttl (now s : Z) (key value : string) (srv : RedisServer)
    (db : Database) :
  databases srv !! selectedDB srv = Some db -> value <> "" -> 0 <= s <= 9223372036 ->
  exists srv',
    setexCommand now [key; Itoa s; value] srv = CReply (returnSimpleString "OK") srv' /\
    (forall t, t <= now + Second * s ->
       exists srv'', getCommand t [key] srv' = CReply (returnBulkString value) srv'') /\
    (forall t, now + Second * s < t ->
       exists srv'', getCommand t [key] srv' = CReply returnNullBulkString srv'') /\
    (forall t1 t2, t1 <= t2 -> now < t2 <= now + Second -> 1 <= s <= 2 ^ 24 ->
       exists srv'', ttlCommand t1 t2 [key] srv' = CReply (returnInteger (s - 1)) srv'').
Proof.
  intros Hsel Hne Hs.
  set (db1 := Setpx now key (s * 1000) value db).
  assert (Hd1 : Setpx now key (wrap64 (s * 1000)) value db = db1).
  { unfold db1. rewrite wrap64_id by (unfold int_min, int_max; lia). reflexivity. }
  assert (He : ExpireKeys db1 !! key = Some (now + Second * s)).
  { unfold db1, Setpx. simpl. rewrite lookup_insert_eq.
    rewrite wrap64_id by (unfold int_min, int_max; lia). unfold Second. f_equal. ring. }
  assert (Hv : StringKeys db1 !! key = Some value) by apply lookup_insert_eq.
  exists (set_databases (<[selectedDB srv := db1]> (databases srv)) srv).
  pose proof (lookup_set_databases_selected srv db db1 Hsel) as Hsel'.
  split; [|split; [|split]].
  - unfold setexCommand. simpl.
    rewrite Atoi_Itoa by lia. unfold on_selected. rewrite Hsel, Hd1. reflexivity.
  - intros t Ht.
    assert (HG : Get t key db1 = (value, db1))
      by (apply Get_live; [exact Hv | intros e Hx; rewrite He in Hx; injection Hx as <-; lia]).
    unfold getCommand. simpl. unfold on_selected. rewrite Hsel', HG.
    rewrite (proj2 (String.eqb_neq _ _) Hne). eexists. reflexivity.
  - intros t Ht.
    unfold getCommand. simpl. unfold on_selected. rewrite Hsel'.
    rewrite (Get_expired t key value (now + Second * s) db1 Hv He ltac:(lia)).
    eexists. reflexivity.
  - intros t1 t2 H12 Ht Hsec.
    unfold ttlCommand. simpl. unfold on_selected. rewrite Hsel'.
    destruct (TTL t1 t2 key db1) as [n db2] eqn:ET.
    assert (Hn : n = s - 1).
    { change n with (fst (n, db2)). rewrite <- ET.
      rewrite (TTL_live_quot t1 t2 key value (now + Second * s) db1 Hv Hne He)
        by (unfold Second in *; lia).
      apply quot_seconds_minus_one; lia. }
    subst n. eexists. reflexivity.
Qed.

Definition server_empty_db : RedisServer := mkServer [NewDatabase 0] 0 disk_without_files.

Lemma setex_then_get_and_ttl_witness :
  databases server_empty_db !! selectedDB server_empty_db = Some (NewDatabase 0) /\
  exists srv',
    setexCommand 0 ["k"; Itoa 10; "v"] server_empty_db = CReply (returnSimpleString "OK") srv' /\
    (forall t, t <= 0 + Second * 10 ->
       exists srv'', getCommand t ["k"] srv' = CReply (returnBulkString "v") srv'') /\
    (forall t, 0 + Second * 10 < t ->
       exists srv'', getCommand t ["k"] srv' = CReply returnNullBulkString srv'') /\
    (forall t1 t2, t1 <= t2 -> 0 < t2 <= 0 + Second -> 1 <= 10 <= 2 ^ 24 ->
       exists srv'', ttlCommand t1 t2 ["k"] srv' = CReply (returnInteger (10 - 1)) srv'').
Proof.
  split; [reflexivity|].
  apply (setex_then_get_and_ttl 0 10 "k" "v" server_empty_db (NewDatabase 0));
    [reflexivity | discriminate | lia].
Defined.

(** SET's third argument, compared case-insensitively: PX or EX without
    the count that should follow panics ([args[3]] is out of range); PX or
    EX followed by a non-integer is rejected; any other option is rejected
    as an unknown command. The rejections change nothing. *)
Theorem setCommand_options (now : Z) (key value opt : string) (rest : list string)
    (srv : RedisServer) :
  ((ToUpper_ascii opt = "PX" \/ ToUpper_ascii opt = "EX") ->
     setCommand now [key; value; opt] srv = CPanic) /\
  (forall a, (ToUpper_ascii opt = "PX" \/ ToUpper_ascii opt = "EX") -> Atoi a = None ->
     setCommand now (key :: value :: opt :: a :: rest) srv = CReply not_an_integer srv) /\
  (ToUpper_ascii opt <> "PX" -> ToUpper_ascii opt <> "EX" ->
     setCommand now (key :: value :: opt :: rest) srv =
       CReply (returnError ("unknown command '" ++ opt ++ "'")) srv).
Proof.
  split; [|split].
  - intros [H|H]; unfold setCommand; simpl; rewrite H; reflexivity.
  - intros a [H|H] Ha; unfold setCommand; simpl; rewrite H, Ha; reflexivity.
  - intros H1 H2. unfold setCommand. simpl.
    rewrite (proj2 (String.eqb_neq _ _) H1), (proj2 (String.eqb_neq _ _) H2). reflexivity.
Qed.

(* ------------------------------------------------------------------ *)
(** ** MSET *)

Lemma MSet_MSetNX_set (args : list string) (db : Database) :
  MSet args db = MSetNX_set args db.
Proof.
  revert db. induction args as [|k|k v r IH] using pairwise_ind; intros db;
    [reflexivity | reflexivity | apply IH].
Qed.

(** MSET never panics on the selected database: an odd number of
    arguments (or none) is rejected with the wrong-number-of-arguments
    error and no change; an even, non-empty list stores, for every listed
    key, the value of its last pair, keeps every other key and all
    expiries. *)
Theorem msetCommand_spec (args : list string) (srv : RedisServer) (db : Database) :
  databases srv !! selectedDB srv = Some db ->
  ((Nat.Odd (length args) \/ args = []) ->
     msetCommand args srv = CReply (returnWrongNumberOfArgumentsError "MSET") srv) /\
  (Nat.Even (length args) -> args <> [] ->
     exists db', msetCommand args srv =
       CReply (returnSimpleString "OK") (set_databases (<[selectedDB srv := db']> (databases srv)) srv) /\
     db_id db' = db_id db /\ ExpireKeys db' = ExpireKeys db /\
     forall k, StringKeys db' !! k =
       match pair_lookup args k with Some v => Some v | None => StringKeys db !! k end).
Proof.
  intros Hsel. split.
  - intros [Hodd | ->]; [|reflexivity]. unfold msetCommand.
    destruct args as [|a [|b r]]; [reflexivity | reflexivity|].
    replace (checkNumberOfArguments (a :: b :: r) 2) with true by reflexivity.
    replace (Nat.even (length (a :: b :: r))) with false
      by (rewrite <- Nat.negb_odd, (proj2 (Nat.odd_spec _) Hodd); reflexivity).
    reflexivity.
  - intros Hev Hne.
    destruct (MSetNX_set_spec args db Hev) as [db' [Hset [Hi [He Hk]]]].
    exists db'. split; [|auto].
    unfold msetCommand.
    replace (checkNumberOfArguments args 2) with true.
    + replace (Nat.even (length args)) with true by (symmetry; apply Nat.even_spec, Hev).
      simpl. unfold on_selected_opt. rewrite Hsel, MSet_MSetNX_set, Hset. reflexivity.
    + destruct args as [|a [|b r]]; [congruence | |reflexivity].
      exfalso. destruct Hev as [m Hm]. simpl in Hm. lia.
Qed.

Lemma msetCommand_spec_witness :
  databases server_empty_db !! selectedDB server_empty_db = Some (NewDatabase 0) /\
  ((Nat.Odd (length ["a"; "1"]) \/ ["a"; "1"] = []) ->
     msetCommand ["a"; "1"] server_empty_db =
       CReply (returnWrongNumberOfArgumentsError "MSET") server_empty_db) /\
  (Nat.Even (length ["a"; "1"]) -> ["a"; "1"] <> [] ->
     exists db', msetCommand ["a"; "1"] server_empty_db =
       CReply (returnSimpleString "OK")
         (set_databases (<[selectedDB server_empty_db := db']> (databases server_empty_db))
            server_empty_db) /\
     db_id db' = db_id (NewDatabase 0) /\ ExpireKeys db' = ExpireKeys (NewDatabase 0) /\
     forall k, StringKeys db' !! k =
       match pair_lookup ["a"; "1"] k with
       | Some v => Some v | None => StringKeys (NewDatabase 0) !! k end).
Proof.
  split; [reflexivity|]. apply msetCommand_spec. reflexivity.
Defined.

(* ------------------------------------------------------------------ *)
(** ** SELECT *)

Lemma Get_fst_sweep (now : Z) (db : Database) (k : string) :
  fst (Get now k (checkAndRemoveExpiredKeys now db)) = fst (Get now k db).
Proof.
  destruct (expired now db k) eqn:E.
  - rewrite Get_absent by (simpl; rewrite lookup_filter_expired, E; reflexivity).
    symmetry. apply Get_fst_expired. exact E.
  - apply Get_fst_local; simpl; rewrite lookup_filter_expired, E; reflexivity.
Qed.

(** On a server with its 16 databases, SELECT never panics. With one
    argument that parses as an index in [0, 16) it answers OK and switches
    to that database, whose expired keys it sweeps (no [Get] answer
    changes), leaving the other databases and the disk alone; it does not
    load the dump file. Any other argument list is rejected with no
    change. *)
Theorem selectCommand_spec (now : Z) (args : list string) (srv : RedisServer) :
  length (databases srv) = 16%nat -> (selectedDB srv < 16)%nat ->
  exists reply srv', selectCommand now args srv = CReply reply srv' /\
  ((exists a i, args = [a] /\ Atoi a = Some i /\ 0 <= i < 16 /\
      reply = returnSimpleString "OK" /\ selectedDB srv' = Z.to_nat i /\
      disk srv' = disk srv /\ length (databases srv') = 16%nat /\
      (forall j, j <> Z.to_nat i -> databases srv' !! j = databases srv !! j) /\
      (forall k, option_map (fun db => fst (Get now k db)) (databases srv' !! Z.to_nat i) =
                 option_map (fun db => fst (Get now k db)) (databases srv !! Z.to_nat i)))
   \/ (srv' = srv /\ forall a i, args = [a] -> Atoi a = Some i -> ~ (0 <= i < 16))).
Proof.
  intros Hlen Hsel. unfold selectCommand.
  destruct args as [|a [|b r]]; simpl;
    [do 2 eexists; split; [reflexivity|]; right; split; [reflexivity|]; intros; discriminate| |
     do 2 eexists; split; [reflexivity|]; right; split; [reflexivity|]; intros; discriminate].
  destruct (Atoi a) as [i|] eqn:Ha.
  - destruct ((i <? 0) || (16 <=? i)) eqn:Hr.
    + do 2 eexists. split; [reflexivity|]. right. split; [reflexivity|].
      intros a' i' Heq Ha'. injection Heq as <-. rewrite Ha in Ha'. injection Ha' as <-.
      apply orb_true_iff in Hr as [Hr|Hr]; [apply Z.ltb_lt in Hr | apply Z.leb_le in Hr]; lia.
    + apply orb_false_iff in Hr as [Hr1 Hr2].
      apply Z.ltb_ge in Hr1. apply Z.leb_gt in Hr2.
      unfold SelectDB.
      destruct (lookup_lt_is_Some_2 (databases srv) (selectedDB srv) ltac:(lia)) as [cur Hcur].
      destruct (lookup_lt_is_Some_2 (databases srv) (Z.to_nat i) ltac:(lia)) as [db Hdb].
      rewrite Hcur, Hdb. do 2 eexists. split; [reflexivity|]. left.
      exists a, i. simpl. split; [reflexivity|]. split; [exact Ha|]. split; [lia|].
      split; [reflexivity|]. split; [reflexivity|]. split; [reflexivity|].
      split; [rewrite length_insert; exact Hlen|]. split.
      * intros j Hj. apply list_lookup_insert_ne. congruence.
      * intros k. rewrite list_lookup_insert_eq by lia. rewrite Hdb. simpl.
        f_equal. apply Get_fst_sweep.
  - do 2 eexists. split; [reflexivity|]. right. split; [reflexivity|].
    intros a' i' Heq Ha'. injection Heq as <-. congruence.
Qed.

Definition sixteen_dbs : RedisServer :=
  mkServer (map NewDatabase [0; 1; 2; 3; 4; 5; 6; 7; 8; 9; 10; 11; 12; 13; 14; 15])
           0 disk_without_files.

Lemma selectCommand_spec_witness :
  length (databases sixteen_dbs) = 16%nat /\ (selectedDB sixteen_dbs < 16)%nat /\
  exists reply srv', selectCommand 0 ["3"] sixteen_dbs = CReply reply srv' /\
  ((exists a i, ["3"] = [a] /\ Atoi a = Some i /\ 0 <= i < 16 /\
      reply = returnSimpleString "OK" /\ selectedDB srv' = Z.to_nat i /\
      disk srv' = disk sixteen_dbs /\ length (databases srv') = 16%nat /\
      (forall j, j <> Z.to_nat i -> databases srv' !! j = databases sixteen_dbs !! j) /\
      (forall k, option_map (fun db => fst (Get 0 k db)) (databases srv' !! Z.to_nat i) =
                 option_map (fun db => fst (Get 0 k db)) (databases sixteen_dbs !! Z.to_nat i)))
   \/ (srv' = sixteen_dbs /\ forall a i, ["3"] = [a] -> Atoi a = Some i -> ~ (0 <= i < 16))).
Proof.
  split; [reflexivity|]. split; [simpl; lia|].
  apply selectCommand_spec; [reflexivity | simpl; lia].
Defined.

(* ------------------------------------------------------------------ *)
(** ** Serving a connection: [handleRequest] *)

(** A request that is not an array, or is an empty array, reaches
    [value.Array()[0]] with an empty slice: the index panic terminates the
    server. So a Status frame, a BulkString frame or ["*0\r\n"] sent by a
    client brings the server down, whatever the command table. *)
Theorem handleRequest_non_array_panics (ToUpper : string -> string)
    (commandMap : string -> option (list string -> RedisServer -> CmdResult))
    (srv : RedisServer) :
  (forall s rest, no_crlf (wire s) ->
     handleRequest_step ToUpper commandMap (app (wire (returnSimpleString s)) rest) srv
       = StepPanic) /\
  (forall s rest, Z.of_nat (String.length s) + 2 <= maxAlloc ->
     handleRequest_step ToUpper commandMap (app (wire (returnBulkString s)) rest) srv
       = StepPanic) /\
  (forall rest,
     handleRequest_step ToUpper commandMap (app (wire ("*0" ++ CRLF)) rest) srv = StepPanic).
Proof.
  split; [|split].
  - intros s rest H. unfold handleRequest_step, DecodeRESP.
    rewrite decode_simple_string by exact H. reflexivity.
  - intros s rest H. unfold handleRequest_step, DecodeRESP.
    rewrite decode_bulk_string by exact H. reflexivity.
  - intros rest. reflexivity.
Qed.

(** A command sent as the array [returnArray] writes (a name and
    arguments, all non-empty) is decoded and handed to the handler that
    the upper-cased name selects, with the arguments in order; the rest of
    the stream is left for the next iteration. An unknown name gets the
    error reply naming it. *)
Theorem handleRequest_dispatches (ToUpper : string -> string)
    (commandMap : string -> option (list string -> RedisServer -> CmdResult))
    (name : string) (args : list string) (rest : bytes) (srv : RedisServer) :
  Forall (fun v => v <> "" /\ Z.of_nat (String.length v) + 2 <= maxAlloc) (name :: args) ->
  Z.of_nat (length (name :: args)) < 2 ^ 63 ->
  handleRequest_step ToUpper commandMap (app (wire (returnArray (name :: args))) rest) srv =
    match commandMap (ToUpper name) with
    | Some command =>
        match command args srv with
        | CPanic => StepPanic
        | CReply response srv' => StepReply response rest srv'
        end
    | None => StepReply (returnError ("Unknown command '" ++ ToUpper name ++ "'")) rest srv
    end.
Proof.
  intros Hall Hlen. unfold handleRequest_step, DecodeRESP.
  destruct (length (app (wire (returnArray (name :: args))) rest)) as [|n] eqn:E.
  - exfalso. unfold returnArray in E. simpl in E. discriminate E.
  - rewrite decode_array by assumption. simpl.
    rewrite string_of_list_ascii_of_string.
    unfold Value_StringArray. simpl. rewrite map_map.
    rewrite (map_ext _ (fun v => v)) by (intros v; apply string_of_list_ascii_of_string).
    rewrite map_id. reflexivity.
Qed.

Definition upper_id (s : string) : string := s.
Definition echo_only (name : string) : option (list string -> RedisServer -> CmdResult) :=
  if String.eqb name "ECHO" then Some echoCommand else None.

Lemma handleRequest_dispatches_witness :
  Forall (fun v => v <> "" /\ Z.of_nat (String.length v) + 2 <= maxAlloc) ["ECHO"; "hi"] /\
  Z.of_nat (length ["ECHO"; "hi"]) < 2 ^ 63 /\
  handleRequest_step upper_id echo_only (app (wire (returnArray ["ECHO"; "hi"])) []) server_empty_db =
    StepReply (returnBulkString "hi") [] server_empty_db.
Proof.
  assert (Hf : Forall (fun v => v <> "" /\ Z.of_nat (String.length v) + 2 <= maxAlloc)
                 ["ECHO"; "hi"]).
  { repeat constructor; (discriminate || (unfold maxAlloc; simpl; lia)). }
  assert (Hl : Z.of_nat (length ["ECHO"; "hi"]) < 2 ^ 63) by (simpl; lia).
  split; [exact Hf|]. split; [exact Hl|].
  rewrite (handleRequest_dispatches upper_id echo_only "ECHO" ["hi"] [] server_empty_db Hf Hl).
  reflexivity.
Defined.

(* ------------------------------------------------------------------ *)
(** ** SAVE then LOAD *)

(** When the snapshot was written, loading it by the default name into a
    database with the same id restores every saved key to its saved value
    and expiry; keys that are not in the snapshot keep their entries. *)
Theorem Save_then_Load (db db2 : Database) (d : Disk) :
  can_create d (dump_file_name db) = true -> write_ok d (dump_file_name db) = true ->
  db_id db2 = db_id db ->
  let db3 := Load "" (Save db d) db2 in
  db_id db3 = db_id db2 /\
  (forall k, StringKeys db3 !! k =
     match StringKeys db !! k with Some v => Some v | None => StringKeys db2 !! k end) /\
  (forall k, ExpireKeys db3 !! k =
     match ExpireKeys db !! k with Some e => Some e | None => ExpireKeys db2 !! k end).
Proof.
  intros Hc Hw Hid db3. unfold db3, Load, Save. rewrite Hc, Hw. simpl.
  rewrite Hid, String.eqb_refl. simpl.
  split; [exact Hid|]. split; intros k; rewrite lookup_union;
    [destruct (StringKeys db !! k), (StringKeys db2 !! k) | destruct (ExpireKeys db !! k), (ExpireKeys db2 !! k)];
    reflexivity.
Qed.

Definition disk_writable : Disk :=
  mkDisk (fun _ => FileMissing) (fun _ => true) (fun _ => true).

Lemma Save_then_Load_witness :
  can_create disk_writable (dump_file_name db_with_expiry) = true /\
  let db3 := Load "" (Save db_with_expiry disk_writable) (NewDatabase 0) in
  db_id db3 = db_id (NewDatabase 0) /\
  (forall k, StringKeys db3 !! k =
     match StringKeys db_with_expiry !! k with Some v => Some v | None => StringKeys (NewDatabase 0) !! k end) /\
  (forall k, ExpireKeys db3 !! k =
     match ExpireKeys db_with_expiry !! k with Some e => Some e | None => ExpireKeys (NewDatabase 0) !! k end).
Proof.
  split; [reflexivity|].
  apply Save_then_Load; reflexivity.
Defined.

(* ------------------------------------------------------------------ *)
(** ** Handlers that never panic *)

(** Unlike ECHO and SET with a PX or EX option, these handlers check
    their arguments before indexing them: as long as the selected database
    exists, no argument list makes them panic. *)
Theorem checked_commands_never_panic (now t : Z) (args : list string) (srv : RedisServer)
    (db : Database) :
  databases srv !! selectedDB srv = Some db ->
  pingCommand args srv <> CPanic /\ getCommand now args srv <> CPanic /\
  getsetCommand now args srv <> CPanic /\ getdelCommand now args srv <> CPanic /\
  setexCommand now args srv <> CPanic /\ msetCommand args srv <> CPanic /\
  msetnxCommand now args srv <> CPanic /\ mgetCommand now args srv <> CPanic /\
  delCommand now args srv <> CPanic /\ existsCommand now args srv <> CPanic /\
  incrCommand now args srv <> CPanic /\ incrbyCommand now args srv <> CPanic /\
  decrCommand now args srv <> CPanic /\ decrbyCommand now args srv <> CPanic /\
  expireCommand now t args srv <> CPanic /\ ttlCommand now t args srv <> CPanic /\
  persistCommand now args srv <> CPanic /\ flushdbCommand args srv <> CPanic /\
  flushallCommand args srv <> CPanic.
Proof.
  intros Hsel.
  assert (Hms : forall a d, Nat.even (length a) = true -> MSet a d <> None).
  { intros a d0 Ha. rewrite MSet_MSetNX_set.
    destruct (MSetNX_set_spec a d0 (proj1 (Nat.even_spec _) Ha)) as [db' [-> _]].
    discriminate. }
  assert (Hmx : forall a d, Nat.even (length a) = true -> MSetNX now a d <> None).
  { intros a d0 Ha. unfold MSetNX.
    destruct (MSetNX_check now a d0) as [[|] db1]; [|discriminate].
    destruct (MSetNX_set_spec a db1 (proj1 (Nat.even_spec _) Ha)) as [db' [-> _]].
    discriminate. }
  repeat split; intros H;
    unfold pingCommand, getCommand, getsetCommand, getdelCommand, setexCommand,
      msetCommand, msetnxCommand, mgetCommand, delCommand, existsCommand, incrCommand,
      incrbyCommand, decrCommand, decrbyCommand, expireCommand, ttlCommand,
      persistCommand, flushdbCommand, flushallCommand, on_selected, on_selected_opt in H;
    rewrite ?Hsel in H;
    destruct args as [|a [|b [|c r]]]; simpl in H; simplify_eq;
    repeat (case_match; simplify_eq);
    match goal with
    | H1 : MSet ?l ?d = None |- _ => apply (Hms l d); [|exact H1]
    | H1 : MSetNX _ ?l ?d = None |- _ => apply (Hmx l d); [|exact H1]
    end;
    simpl in *; try reflexivity;
    repeat match goal with Hl : S _ = S _ |- _ => injection Hl as Hl end;
    repeat match goal with Hl : length _ = _ |- _ => rewrite Hl; clear Hl end;
    match goal with Hn : negb (Nat.even _) = false |- _ => apply negb_false_iff in Hn end;
    assumption.
Qed.

Lemma checked_commands_never_panic_witness :
  databases server_empty_db !! selectedDB server_empty_db = Some (NewDatabase 0) /\
  getCommand 0 [] server_empty_db <> CPanic.
Proof.
  split; [reflexivity|].
  apply (checked_commands_never_panic 0 0 [] server_empty_db (NewDatabase 0)). reflexivity.
Defined.
